(** * Drilling control simulator: severity scoring, event detection,
      auto-driller state machine and playback cursor.

    Shallow embedding of [clientDetection.ts] ([recompute], the severity
    labels), [clientController.ts] ([runController]), the playback part of
    [SimulationEngine.tsx] ([tick], [moveCursor], the transport handlers,
    the event counter and the scrubber markers), the gauge's clamp, the
    chart's sampling in [LiveChart.tsx] and [formatDuration] of [utils.ts].

    Numbers.  A JavaScript [number] that carries a measurement is modelled
    as an exact rational ([Q]); IEEE-754 rounding, [NaN] and the infinities
    are not modelled.  Array indices, loop counters and sample counts are
    modelled as [Z].  A nullable channel ([number | null]) is [option Q]. *)

From Stdlib Require Import String ZArith QArith Qminmax Qround Lqa Lia Bool List.
From stdpp Require Import base list.
Import ListNotations.

Local Open Scope Z_scope.

(** ** JavaScript numeric primitives *)

Module Js.

(** [a >= b] *)
Definition geb (a b : Q) : bool := Qle_bool b a.

(** [a < b] *)
Definition ltb (a b : Q) : bool :=
  match (a ?= b)%Q with Lt => true | _ => false end.

(** [a > b] *)
Definition gtb (a b : Q) : bool := ltb b a.

(** [Math.max(a, b)] and [Math.min(a, b)] *)
Definition max (a b : Q) : Q := Qmax a b.
Definition min (a b : Q) : Q := Qmin a b.

(** [x ?? d] *)
Definition nullish {A : Type} (x : option A) (d : A) : A :=
  match x with Some v => v | None => d end.

(** [arr[j]]: reading outside [0 .. length-1] yields [undefined]. *)
Definition index {A : Type} (arr : list A) (j : Z) : option A :=
  if j <? 0 then None else arr !! Z.to_nat j.

(** [arr[j] = x] for [j < arr.length]: a negative [j] creates a named
    property and leaves the elements untouched. *)
Definition set {A : Type} (arr : list A) (j : Z) (x : A) : list A :=
  if j <? 0 then arr else <[Z.to_nat j := x]> arr.

(** Truthiness of [arr[j]] for a boolean array: [undefined] is falsy. *)
Definition truthy (x : option bool) : bool :=
  match x with Some true => true | _ => false end.

End Js.

(** ** clientController.ts *)

Inductive ControllerState : Type :=
  | NORMAL | DETECTING | MITIGATING | RECOVERING.

Record ControllerParams : Type := {
  ssiEngage : Q;
  ssiRecovery : Q;
  holdoffSamples : Z;
  kpWob : Q;
  wobMinFraction : Q;
  kpRpm : Q;
  rpmMaxIncrease : Q
}.

Definition DEFAULT_CONTROLLER : ControllerParams := {|
  ssiEngage := 0.25;
  ssiRecovery := 0.20;
  holdoffSamples := 5;
  kpWob := 0.30;
  wobMinFraction := 0.35;
  kpRpm := 0.15;
  rpmMaxIncrease := 25
|}.

Record ControllerOutput : Type := {
  state : ControllerState;
  wob_setpoint : Q;
  rpm_setpoint : Q
}.

(** ** types.ts and clientDetection.ts *)

(** [TelemetryRow]: the time stamp and the three pre-computed channels that
    [recompute] reads.  The remaining fields of the TypeScript interface are
    carried along unchanged by the spread [{...r}] and are never read by the
    code modelled here. *)
Record TelemetryRow : Type := {
  elapsed_s : Q;
  mwd_ssi : option Q;
  torque_deviation : option Q;
  rpm_ssi : option Q
}.

Record DetectionParams : Type := {
  mwdWeight : Q;
  torqueWeight : Q;
  rpmWeight : Q;
  cssThreshold : Q;
  minDurationSamples : Z
}.

Definition DEFAULT_PARAMS : DetectionParams := {|
  mwdWeight := 0.60;
  torqueWeight := 0.30;
  rpmWeight := 0.10;
  cssThreshold := 0.25;
  minDurationSamples := 4
|}.

(** [ProcessedRow extends TelemetryRow] *)
Record ProcessedRow : Type := {
  telemetry : TelemetryRow;
  computed_css : Q;
  computed_flag : bool;
  computed_event_id : Z
}.

(** Step 1, the body of [rows.map((r) => ...)], for the normalised weights
    [wMwd], [wTorque], [wRpm]. *)
Definition css_of (wMwd wTorque wRpm : Q) (r : TelemetryRow) : Q :=
  let mwd := (Js.nullish (mwd_ssi r) 0 * wMwd)%Q in
  let torque :=
    (Js.max 0 (Js.min 1 (Js.nullish (torque_deviation r) 0 * 0.5)) * wTorque)%Q in
  let rpm :=
    (Js.max 0 (Js.min 1 (Js.nullish (rpm_ssi r) 0 * 0.5)) * wRpm)%Q in
  Js.min 1 (mwd + torque + rpm)%Q.

Definition score_row (wMwd wTorque wRpm : Q) (r : TelemetryRow) : ProcessedRow :=
  {| telemetry := r;
     computed_css := css_of wMwd wTorque wRpm r;
     computed_flag := false;
     computed_event_id := 0 |}.

(** Step 2, inner loop [for (j = i - w + 1; j <= i; j++)]: [steps] is the
    number of iterations left; a falsy [rawFlag[j]] breaks out. *)
Fixpoint window_all (rawFlag : list bool) (j : Z) (steps : nat) : bool :=
  match steps with
  | O => true
  | S k =>
      if negb (Js.truthy (Js.index rawFlag j)) then false
      else window_all rawFlag (j + 1) k
  end.

(** Step 2, outer loop [for (i = w - 1; i < n; i++)]. *)
Fixpoint sustain_loop (rawFlag : list bool) (w : Z) (i : Z) (steps : nat)
    (sustained : list bool) : list bool :=
  match steps with
  | O => sustained
  | S k =>
      let allTrue := window_all rawFlag (i - w + 1) (Z.to_nat w) in
      let sustained' := if allTrue then Js.set sustained i true else sustained in
      sustain_loop rawFlag w (i + 1) k sustained'
  end.

(** [sustained] as it stands after the loop; [n = rawFlag.length]. *)
Definition sustained_flags (rawFlag : list bool) (w : Z) : list bool :=
  let n := Z.of_nat (length rawFlag) in
  sustain_loop rawFlag w (w - 1) (Z.to_nat (n - (w - 1)))
    (replicate (length rawFlag) false).

(** Step 3, one iteration's update of [(eventId, inEvent)]. *)
Definition event_step (s : bool) (eventId : Z) (inEvent : bool) : Z * bool :=
  if s && negb inEvent then (eventId + 1, true)
  else if negb s then (eventId, false)
  else (eventId, inEvent).

(** Step 3, the loop [for (i = 0; i < n; i++)] over the rows still to be
    visited; row [i] receives its flag and its event id. *)
Fixpoint event_loop (sustained : list bool) (i : Z) (eventId : Z)
    (inEvent : bool) (processed : list ProcessedRow) : list ProcessedRow :=
  match processed with
  | [] => []
  | r :: rest =>
      let s := Js.truthy (Js.index sustained i) in
      let '(eventId', inEvent') := event_step s eventId inEvent in
      {| telemetry := telemetry r;
         computed_css := computed_css r;
         computed_flag := s;
         computed_event_id := if s then eventId' else 0 |}
      :: event_loop sustained (i + 1) eventId' inEvent' rest
  end.

Definition rawFlags (processed : list ProcessedRow) (threshold : Q) : list bool :=
  map (fun r => Js.geb (computed_css r) threshold) processed.

Definition recompute (rows : list TelemetryRow) (params : DetectionParams)
    : list ProcessedRow :=
  let total := (mwdWeight params + torqueWeight params + rpmWeight params)%Q in
  let wMwd := (mwdWeight params / total)%Q in
  let wTorque := (torqueWeight params / total)%Q in
  let wRpm := (rpmWeight params / total)%Q in
  let processed := map (score_row wMwd wTorque wRpm) rows in
  let rawFlag := rawFlags processed (cssThreshold params) in
  let sustained := sustained_flags rawFlag (minDurationSamples params) in
  event_loop sustained 0 0 false processed.

(** ** clientController.ts, [runController] *)

(** The loop variables of [runController]. *)
Record Vars : Type := {
  v_state : ControllerState;
  detectionStartIdx : Z;
  recoveryStartIdx : Z;
  wobSp : Q;
  rpmSp : Q
}.

Definition with_state (s : ControllerState) (v : Vars) : Vars :=
  {| v_state := s;
     detectionStartIdx := detectionStartIdx v;
     recoveryStartIdx := recoveryStartIdx v;
     wobSp := wobSp v;
     rpmSp := rpmSp v |}.

Definition with_setpoints (wob rpm : Q) (v : Vars) : Vars :=
  {| v_state := v_state v;
     detectionStartIdx := detectionStartIdx v;
     recoveryStartIdx := recoveryStartIdx v;
     wobSp := wob;
     rpmSp := rpm |}.

Definition enter_detecting (i : Z) (v : Vars) : Vars :=
  {| v_state := DETECTING;
     detectionStartIdx := i;
     recoveryStartIdx := recoveryStartIdx v;
     wobSp := wobSp v;
     rpmSp := rpmSp v |}.

Definition enter_recovering (i : Z) (v : Vars) : Vars :=
  {| v_state := RECOVERING;
     detectionStartIdx := detectionStartIdx v;
     recoveryStartIdx := i;
     wobSp := wobSp v;
     rpmSp := rpmSp v |}.

Section Controller.

Variable params : ControllerParams.
Variables nominalWob nominalRpm : Q.

Definition excess_of (css : Q) : Q := Js.max 0 (css - ssiEngage params)%Q.

Definition mitigating_wob (css : Q) : Q :=
  Js.max (nominalWob * wobMinFraction params)%Q
         (nominalWob - kpWob params * excess_of css * nominalWob)%Q.

Definition mitigating_rpm (css : Q) : Q :=
  Js.min (nominalRpm + rpmMaxIncrease params)%Q
         (nominalRpm + kpRpm params * excess_of css * 10)%Q.

(** The [switch (state)] of one loop iteration, at index [i] with
    [css = rows[i].computed_css]. *)
Definition controller_step (i : Z) (css : Q) (v : Vars) : Vars :=
  match v_state v with
  | NORMAL =>
      let v1 := with_setpoints nominalWob nominalRpm v in
      if Js.geb css (ssiEngage params) then enter_detecting i v1 else v1
  | DETECTING =>
      if Js.ltb css (ssiEngage params) then with_state NORMAL v
      else if holdoffSamples params <=? i - detectionStartIdx v
           then with_state MITIGATING v
           else v
  | MITIGATING =>
      let v1 := with_setpoints (mitigating_wob css) (mitigating_rpm css) v in
      if Js.ltb css (ssiRecovery params) then enter_recovering i v1 else v1
  | RECOVERING =>
      if Js.geb css (ssiEngage params) then with_state MITIGATING v
      else if 12 <=? i - recoveryStartIdx v then
        let v1 :=
          with_setpoints (Js.min nominalWob (wobSp v + 0.008 * nominalWob)%Q)
                         (Js.max nominalRpm (rpmSp v - 0.5)%Q) v in
        if Js.geb (wobSp v1) (nominalWob * 0.98)%Q
        then with_state NORMAL (with_setpoints nominalWob nominalRpm v1)
        else v1
      else v
  end.

Definition output_of (v : Vars) : ControllerOutput :=
  {| state := v_state v; wob_setpoint := wobSp v; rpm_setpoint := rpmSp v |}.

(** [for (let i = 0; i < rows.length; i++) { ...; outputs.push(...) }],
    over the rows still to be visited. *)
Fixpoint controller_loop (i : Z) (v : Vars) (rows : list ProcessedRow)
    : list ControllerOutput :=
  match rows with
  | [] => []
  | r :: rest =>
      let v' := controller_step i (computed_css r) v in
      output_of v' :: controller_loop (i + 1) v' rest
  end.

Definition initial_vars : Vars :=
  {| v_state := NORMAL;
     detectionStartIdx := 0;
     recoveryStartIdx := 0;
     wobSp := nominalWob;
     rpmSp := nominalRpm |}.

Definition runController (rows : list ProcessedRow) : list ControllerOutput :=
  controller_loop 0 initial_vars rows.

End Controller.

(** ** SimulationEngine.tsx: playback cursor and display smoothing *)

(** Samples advanced per animation frame. *)
Definition SPEEDS : list Z := [1; 5; 20; 100].

(** The refs and React state that [tick] and [moveCursor] write.  The DOM
    writes (scrubber fill, chart cursor, time label) and the re-registration
    of the animation frame are not modelled. *)
Record Playback : Type := {
  cursorIdxRef : Z;
  cursorIdx : Z;
  playing : bool;
  lastFrameRef : Q;
  lastDisplayRef : Q;
  smoothedCssRef : Q;
  displayCss : Q
}.

(** [processed[idx]?.computed_css ?? 0] *)
Definition css_at (processed : list ProcessedRow) (idx : Z) : Q :=
  Js.nullish (computed_css <$> Js.index processed idx) 0%Q.

(** Attack-release EMA: [alpha = raw > y ? 0.4 : 0.08;
    y = alpha * raw + (1 - alpha) * y]. *)
Definition ema_update (y raw : Q) : Q :=
  let alpha := if Js.gtb raw y then 0.4%Q else 0.08%Q in
  (alpha * raw + (1 - alpha) * y)%Q.

(** One animation frame at time stamp [ts]; [samples] is
    [SPEEDS[speedIdx].samples]. *)
Definition tick (processed : list ProcessedRow) (samples : Z) (ts : Q)
    (pb : Playback) : Playback :=
  let lastFrame :=
    if Qeq_bool (lastFrameRef pb) 0 then ts else lastFrameRef pb in
  let frameDelta := (ts - lastFrame)%Q in
  if Js.geb frameDelta 16 then
    let newIdx :=
      Z.min (cursorIdxRef pb + samples) (Z.of_nat (length processed) - 1) in
    if Js.geb (ts - lastDisplayRef pb)%Q 66 then
      let smoothed := ema_update (smoothedCssRef pb) (css_at processed newIdx) in
      {| cursorIdxRef := newIdx;
         cursorIdx := newIdx;
         playing :=
           if Z.of_nat (length processed) - 1 <=? newIdx then false
           else playing pb;
         lastFrameRef := ts;
         lastDisplayRef := ts;
         smoothedCssRef := smoothed;
         displayCss := smoothed |}
    else
      {| cursorIdxRef := newIdx;
         cursorIdx := cursorIdx pb;
         playing := playing pb;
         lastFrameRef := ts;
         lastDisplayRef := lastDisplayRef pb;
         smoothedCssRef := smoothedCssRef pb;
         displayCss := displayCss pb |}
  else
    {| cursorIdxRef := cursorIdxRef pb;
       cursorIdx := cursorIdx pb;
       playing := playing pb;
       lastFrameRef := lastFrame;
       lastDisplayRef := lastDisplayRef pb;
       smoothedCssRef := smoothedCssRef pb;
       displayCss := displayCss pb |}.

(** [moveCursor(newIdx)]: restart, jump to end and scrubbing. *)
Definition moveCursor (processed : list ProcessedRow) (newIdx : Z)
    (pb : Playback) : Playback :=
  let raw := css_at processed newIdx in
  {| cursorIdxRef := newIdx;
     cursorIdx := newIdx;
     playing := playing pb;
     lastFrameRef := lastFrameRef pb;
     lastDisplayRef := lastDisplayRef pb;
     smoothedCssRef := raw;
     displayCss := raw |}.

(** The values derived from the throttled [cursorIdx] on each render:
    [row = processed[cursorIdx] ?? processed[0]],
    [ctrl = ctrlOutputs[cursorIdx] ?? ctrlOutputs[0]], and the gauge value. *)
Record Display : Type := {
  d_cursorIdx : Z;
  d_row : option ProcessedRow;
  d_ctrl : option ControllerOutput;
  d_displayCss : Q
}.

Definition or_first {A : Type} (arr : list A) (idx : Z) : option A :=
  match Js.index arr idx with
  | Some x => Some x
  | None => Js.index arr 0
  end.

Definition display_of (processed : list ProcessedRow)
    (ctrlOutputs : list ControllerOutput) (pb : Playback) : Display :=
  {| d_cursorIdx := cursorIdx pb;
     d_row := or_first processed (cursorIdx pb);
     d_ctrl := or_first ctrlOutputs (cursorIdx pb);
     d_displayCss := displayCss pb |}.

(** A run of animation frames, each with its speed and time stamp. *)
Definition ticks (processed : list ProcessedRow) (frames : list (Z * Q))
    (pb : Playback) : Playback :=
  fold_left (fun acc f => tick processed (fst f) (snd f) acc) frames pb.

(** ** Completion of the batch entry points

    Neither [recompute] nor [runController] contains a [throw] statement, a
    parameter check or a call that can raise: every call runs its loops to
    the end and returns the array it built. *)

Inductive Completion (A : Type) : Type :=
  | Returned (value : A)
  | ThrewConfigurationError.

Arguments Returned {A} value.
Arguments ThrewConfigurationError {A}.

Definition recompute_completion (rows : list TelemetryRow)
    (params : DetectionParams) : Completion (list ProcessedRow) :=
  Returned (recompute rows params).

Definition runController_completion (rows : list ProcessedRow)
    (params : ControllerParams) (nominalWob nominalRpm : Q)
    : Completion (list ControllerOutput) :=
  Returned (runController params nominalWob nominalRpm rows).

(** The configurations the specification calls invalid. *)
Definition invalid_detection (p : DetectionParams) : bool :=
  Qle_bool (mwdWeight p + torqueWeight p + rpmWeight p) 0
  || (minDurationSamples p <? 1).

Definition invalid_controller (p : ControllerParams) : bool :=
  Js.gtb (ssiRecovery p) (ssiEngage p)
  || Js.ltb (kpWob p) 0
  || Js.ltb (kpRpm p) 0
  || Qle_bool (wobMinFraction p) 0.

(** ** Auxiliary notions used in the statements and proofs *)

(** Number of false-to-true transitions met while reading [s] from left to
    right, [prev] being the flag that precedes the first element. *)
Fixpoint rising_edges (prev : bool) (s : list bool) : Z :=
  match s with
  | [] => 0
  | b :: rest => (if b && negb prev then 1 else 0) + rising_edges b rest
  end.

(** The event ids that step 3 writes, read off the flags alone. *)
Fixpoint ids_from (s : list bool) (eventId : Z) (inEvent : bool) : list Z :=
  match s with
  | [] => []
  | b :: rest =>
      let '(eventId', inEvent') := event_step b eventId inEvent in
      (if b then eventId' else 0) :: ids_from rest eventId' inEvent'
  end.

(** The loop variables of [runController] after each iteration. *)
Fixpoint vars_trace (params : ControllerParams) (nominalWob nominalRpm : Q)
    (i : Z) (v : Vars) (rows : list ProcessedRow) : list Vars :=
  match rows with
  | [] => []
  | r :: rest =>
      let v' := controller_step params nominalWob nominalRpm i (computed_css r) v in
      v' :: vars_trace params nominalWob nominalRpm (i + 1) v' rest
  end.

(** Actuator limits: the WOB set-point between its floor and nominal, the RPM
    set-point between nominal and nominal plus the allowed increase. *)
Definition within_limits (params : ControllerParams) (nominalWob nominalRpm : Q)
    (wob rpm : Q) : Prop :=
  (nominalWob * wobMinFraction params <= wob)%Q /\ (wob <= nominalWob)%Q /\
  (nominalRpm <= rpm)%Q /\ (rpm <= nominalRpm + rpmMaxIncrease params)%Q.

(** A telemetry row with the given channels, and a processed row with the
    given severity, for the worked examples. *)
Definition telemetry_row (mwd torque rpm : option Q) : TelemetryRow :=
  {| elapsed_s := 0; mwd_ssi := mwd; torque_deviation := torque; rpm_ssi := rpm |}.

Definition sample_with_css (css : Q) : ProcessedRow :=
  {| telemetry := telemetry_row None None None;
     computed_css := css;
     computed_flag := false;
     computed_event_id := 0 |}.

(** A channel value that is absent or non-negative. *)
Definition absent_or_nonneg (x : option Q) : Prop :=
  match x with
  | None => True
  | Some q => (0 <= q)%Q
  end.

(** Detection weights as the data model wants them: non-negative, not all
    zero. *)
Definition valid_weights (p : DetectionParams) : Prop :=
  (0 <= mwdWeight p)%Q /\ (0 <= torqueWeight p)%Q /\ (0 <= rpmWeight p)%Q /\
  ~ (mwdWeight p == 0 /\ torqueWeight p == 0 /\ rpmWeight p == 0)%Q.

(** Inputs of the worked examples. *)
Definition mwd_only : DetectionParams :=
  {| mwdWeight := 1; torqueWeight := 0; rpmWeight := 0;
     cssThreshold := 0.25; minDurationSamples := 4 |}.

Definition zero_window : DetectionParams :=
  {| mwdWeight := 1; torqueWeight := 0; rpmWeight := 0;
     cssThreshold := 0.25; minDurationSamples := 0 |}.

Definition inverted_thresholds : ControllerParams :=
  {| ssiEngage := 0.25; ssiRecovery := 0.5; holdoffSamples := 5;
     kpWob := -1; wobMinFraction := 0; kpRpm := 0.15; rpmMaxIncrease := 25 |}.

Definition mitigation_run : list ProcessedRow :=
  map sample_with_css [0.3; 0.3; 0.3; 0.3; 0.1]%Q.

Definition quick_controller : ControllerParams :=
  {| ssiEngage := 0.25; ssiRecovery := 0.20; holdoffSamples := 1;
     kpWob := 0.30; wobMinFraction := 0.35; kpRpm := 0.15;
     rpmMaxIncrease := 25 |}.

Definition holdoff_run : list ProcessedRow :=
  map sample_with_css [0.1; 0.3; 0.3; 0.3]%Q.

Definition paused_at_start : Playback :=
  {| cursorIdxRef := 0; cursorIdx := 0; playing := true;
     lastFrameRef := 100; lastDisplayRef := 34;
     smoothedCssRef := 0; displayCss := 0 |}.

(** Case analysis on every integer comparison in the goal. *)
Ltac split_comparison :=
  match goal with
  | |- context [(?x <=? ?y)] => destruct (Z.leb_spec x y) as [?Hle | ?Hgt]
  | |- context [(?x <? ?y)] => destruct (Z.ltb_spec x y) as [?Hlt | ?Hge]
  | |- context [(?x =? ?y)] => destruct (Z.eqb_spec x y) as [?Heq | ?Hne]
  end.

Ltac zcases := repeat split_comparison.

(** ** clientDetection.ts and utils.ts: severity labels and colours *)

Inductive SeverityLabel : Type :=
  | STABLE | MILD | MODERATE | SEVERE.

(** clientDetection.ts *)
Definition cssToSeverity (css : Q) : SeverityLabel :=
  if Js.geb css 0.75 then SEVERE
  else if Js.geb css 0.50 then MODERATE
  else if Js.geb css 0.25 then MILD
  else STABLE.

Definition severityColor (s : SeverityLabel) : string :=
  match s with
  | SEVERE => "#ef4444"
  | MODERATE => "#f97316"
  | MILD => "#eab308"
  | _ => "#22c55e"
  end.

(** utils.ts *)
Definition cssToLevel (css : Q) : SeverityLabel :=
  if Js.geb css 0.75 then SEVERE
  else if Js.geb css 0.50 then MODERATE
  else if Js.geb css 0.25 then MILD
  else STABLE.

(** utils.ts, the table [SEVERITY_COLORS : Record<SeverityLabel, string>]. *)
Definition SEVERITY_COLORS (s : SeverityLabel) : string :=
  match s with
  | STABLE => "#22c55e"
  | MILD => "#eab308"
  | MODERATE => "#f97316"
  | SEVERE => "#ef4444"
  end.

(** SeverityGauge: [sv = Math.max(0, Math.min(1, value))] and
    [fillAngle = startAngle + sv * totalAngle] with [startAngle = 150],
    [totalAngle = 240]. *)
Definition gauge_sv (value : Q) : Q := Js.max 0 (Js.min 1 value).

Definition gauge_fillAngle (value : Q) : Q := (150 + gauge_sv value * 240)%Q.

(** ** SimulationEngine.tsx: sliders, event counter, markers, transport *)

(** The slider handlers [setDetParams((p) => ({ ...p, cssThreshold: v }))]
    and [setDetParams((p) => ({ ...p, minDurationSamples: v }))]. *)
Definition set_cssThreshold (v : Q) (p : DetectionParams) : DetectionParams :=
  {| mwdWeight := mwdWeight p;
     torqueWeight := torqueWeight p;
     rpmWeight := rpmWeight p;
     cssThreshold := v;
     minDurationSamples := minDurationSamples p |}.

Definition set_minDurationSamples (v : Z) (p : DetectionParams)
    : DetectionParams :=
  {| mwdWeight := mwdWeight p;
     torqueWeight := torqueWeight p;
     rpmWeight := rpmWeight p;
     cssThreshold := cssThreshold p;
     minDurationSamples := v |}.

(** [eventCount]: [processed.length > 0
      ? processed[processed.length - 1].computed_event_id : 0].
    The index read in the first branch is always in range. *)
Definition eventCount (processed : list ProcessedRow) : Z :=
  if 0 <? Z.of_nat (length processed) then
    Js.nullish
      (computed_event_id
         <$> Js.index processed (Z.of_nat (length processed) - 1)) 0
  else 0.

(** [arr.filter((x, i) => keep(x, i))], from index [i] on. *)
Fixpoint filter_indexed {A : Type} (keep : A -> Z -> bool) (i : Z)
    (arr : list A) : list A :=
  match arr with
  | [] => []
  | x :: rest =>
      if keep x i then x :: filter_indexed keep (i + 1) rest
      else filter_indexed keep (i + 1) rest
  end.

(** The scrubber's event markers:
    [processed.filter((r, i) =>
       r.computed_flag && (i === 0 || !processed[i - 1].computed_flag))]. *)
Definition event_markers (processed : list ProcessedRow) : list ProcessedRow :=
  filter_indexed
    (fun r i =>
       computed_flag r
       && ((i =? 0)
           || negb (Js.truthy (computed_flag <$> Js.index processed (i - 1)))))
    0 processed.

(** [atEnd = cursorIdx >= processed.length - 1] *)
Definition atEnd (processed : list ProcessedRow) (pb : Playback) : bool :=
  Z.of_nat (length processed) - 1 <=? cursorIdx pb.

Definition set_playing (b : bool) (pb : Playback) : Playback :=
  {| cursorIdxRef := cursorIdxRef pb;
     cursorIdx := cursorIdx pb;
     playing := b;
     lastFrameRef := lastFrameRef pb;
     lastDisplayRef := lastDisplayRef pb;
     smoothedCssRef := smoothedCssRef pb;
     displayCss := displayCss pb |}.

(** The effect run when [processed.length] changes:
    [cursorIdxRef.current = Math.min(cursorIdxRef.current, processed.length - 1);
     setCursorIdx(cursorIdxRef.current)]. *)
Definition sync_cursor (processed : list ProcessedRow) (pb : Playback)
    : Playback :=
  let c := Z.min (cursorIdxRef pb) (Z.of_nat (length processed) - 1) in
  {| cursorIdxRef := c;
     cursorIdx := c;
     playing := playing pb;
     lastFrameRef := lastFrameRef pb;
     lastDisplayRef := lastDisplayRef pb;
     smoothedCssRef := smoothedCssRef pb;
     displayCss := displayCss pb |}.

(** The effect run when [playing] becomes true:
    [lastFrameRef.current = 0; lastDisplayRef.current = 0]. *)
Definition start_animation (pb : Playback) : Playback :=
  {| cursorIdxRef := cursorIdxRef pb;
     cursorIdx := cursorIdx pb;
     playing := playing pb;
     lastFrameRef := 0;
     lastDisplayRef := 0;
     smoothedCssRef := smoothedCssRef pb;
     displayCss := displayCss pb |}.

(** The component's state: the current [processed] array (recomputed when
    the detection parameters change), the selected speed, and the playback
    refs and state. *)
Record Engine : Type := {
  e_processed : list ProcessedRow;
  e_speedIdx : nat;
  e_playback : Playback
}.

(** [SPEEDS[speedIdx].samples]; [speedIdx] only ever holds an index of
    [SPEEDS]. *)
Definition speed_samples (speedIdx : nat) : Z :=
  Js.nullish (SPEEDS !! speedIdx) 0.

(** What the user and the browser can do: an animation frame, the three
    transport buttons, the scrubber, a speed button, and new detection
    parameters that replace the [processed] array. *)
Inductive Action : Type :=
  | Frame (ts : Q)
  | Restart
  | PlayPause
  | JumpToEnd
  | Scrub (value : Z)
  | SetSpeed (i : nat)
  | Recomputed (processed' : list ProcessedRow).

(** The effect on [[playing, tick]]: it restarts the frame timers whenever
    [playing] is true and [playing] or [tick] has changed. *)
Definition restart_if_playing (pb : Playback) : Playback :=
  if playing pb then start_animation pb else pb.

Definition apply_action (a : Action) (e : Engine) : Engine :=
  let processed := e_processed e in
  let pb := e_playback e in
  match a with
  | Frame ts =>
      (* frames are only requested while [playing] *)
      {| e_processed := processed;
         e_speedIdx := e_speedIdx e;
         e_playback :=
           if playing pb
           then tick processed (speed_samples (e_speedIdx e)) ts pb
           else pb |}
  | Restart =>
      {| e_processed := processed;
         e_speedIdx := e_speedIdx e;
         e_playback := moveCursor processed 0 (set_playing false pb) |}
  | PlayPause =>
      let pb1 := if atEnd processed pb then moveCursor processed 0 pb else pb in
      {| e_processed := processed;
         e_speedIdx := e_speedIdx e;
         e_playback := restart_if_playing (set_playing (negb (playing pb1)) pb1) |}
  | JumpToEnd =>
      {| e_processed := processed;
         e_speedIdx := e_speedIdx e;
         e_playback :=
           moveCursor processed (Z.of_nat (length processed) - 1)
             (set_playing false pb) |}
  | Scrub value =>
      {| e_processed := processed;
         e_speedIdx := e_speedIdx e;
         e_playback := moveCursor processed value (set_playing false pb) |}
  | SetSpeed i =>
      {| e_processed := processed;
         e_speedIdx := i;
         e_playback := restart_if_playing pb |}
  | Recomputed processed' =>
      {| e_processed := processed';
         e_speedIdx := e_speedIdx e;
         e_playback :=
           restart_if_playing
             (if Nat.eqb (length processed') (length processed) then pb
              else sync_cursor processed' pb) |}
  end.

(** An action the interface can produce in state [e]: the speed buttons
    carry the indices of [SPEEDS], the scrubber's range is
    [0 .. processed.length - 1], and a recomputed array is not empty (the
    recording has at least one row). *)
Definition action_offered (e : Engine) (a : Action) : Prop :=
  match a with
  | Scrub value => 0 <= value <= Z.of_nat (length (e_processed e)) - 1
  | SetSpeed i => (i < length SPEEDS)%nat
  | Recomputed processed' => processed' <> []
  | _ => True
  end.

Fixpoint run_actions (actions : list Action) (e : Engine) : Engine :=
  match actions with
  | [] => e
  | a :: rest => run_actions rest (apply_action a e)
  end.

(** Every action of the list is offered in the state it is applied to. *)
Fixpoint actions_offered (actions : list Action) (e : Engine) : Prop :=
  match actions with
  | [] => True
  | a :: rest => action_offered e a /\ actions_offered rest (apply_action a e)
  end.

(** The component's initial state: cursor 0, paused, speed index 1. *)
Definition initial_playback : Playback :=
  {| cursorIdxRef := 0; cursorIdx := 0; playing := false;
     lastFrameRef := 0; lastDisplayRef := 0;
     smoothedCssRef := 0; displayCss := 0 |}.

Definition initial_engine (processed : list ProcessedRow) : Engine :=
  {| e_processed := processed; e_speedIdx := 1; e_playback := initial_playback |}.

(** Weights multiplied by a common factor. *)
Definition scale_weights (c : Q) (p : DetectionParams) : DetectionParams :=
  {| mwdWeight := (c * mwdWeight p)%Q;
     torqueWeight := (c * torqueWeight p)%Q;
     rpmWeight := (c * rpmWeight p)%Q;
     cssThreshold := cssThreshold p;
     minDurationSamples := minDurationSamples p |}.

(** Order of severity labels, STABLE lowest. *)
Definition label_rank (s : SeverityLabel) : Z :=
  match s with
  | STABLE => 0
  | MILD => 1
  | MODERATE => 2
  | SEVERE => 3
  end.

(** The state changes that one loop iteration of [runController] can make. *)
Definition transition_allowed (s s' : ControllerState) : bool :=
  match s, s' with
  | NORMAL, (NORMAL | DETECTING) => true
  | DETECTING, (NORMAL | DETECTING | MITIGATING) => true
  | MITIGATING, (MITIGATING | RECOVERING) => true
  | RECOVERING, (RECOVERING | MITIGATING | NORMAL) => true
  | _, _ => false
  end.

(** The per-row severities and the sustained flags of one pass of
    [recompute], as its steps 1 and 2 compute them. *)
Definition pass_css (rows : list TelemetryRow) (params : DetectionParams)
    : list Q :=
  let total := (mwdWeight params + torqueWeight params + rpmWeight params)%Q in
  map (css_of (mwdWeight params / total) (torqueWeight params / total)
              (rpmWeight params / total)) rows.

Definition pass_flags (rows : list TelemetryRow) (params : DetectionParams)
    : list bool :=
  sustained_flags
    (map (fun s => Js.geb s (cssThreshold params)) (pass_css rows params))
    (minDurationSamples params).

(** [[first + 1, ..., first + count]] *)
Definition consecutive_ids (first : Z) (count : Z) : list Z :=
  map (fun k => first + 1 + Z.of_nat k) (seq 0 (Z.to_nat count)).

(** The predicate of the marker filter. *)
Definition starts_event (processed : list ProcessedRow) (r : ProcessedRow)
    (i : Z) : bool :=
  computed_flag r
  && ((i =? 0)
      || negb (Js.truthy (computed_flag <$> Js.index processed (i - 1)))).

(** The output of an idle controller. *)
Definition idle_output (nominalWob nominalRpm : Q) : ControllerOutput :=
  {| state := NORMAL; wob_setpoint := nominalWob; rpm_setpoint := nominalRpm |}.

(** Reduce the record updates of the controller's loop variables. *)
Ltac vars_simpl :=
  cbn [with_state with_setpoints enter_detecting enter_recovering
       v_state wobSp rpmSp detectionStartIdx recoveryStartIdx].

(** What the loop variables of [runController] record about the past after
    sample [k]: in DETECTING, every sample since [detectionStartIdx] reached
    the engage threshold; MITIGATING and RECOVERING are not reached before
    sample [holdoffSamples]. *)
Definition detecting_since (params : ControllerParams)
    (rows : list ProcessedRow) (k : nat) (v : Vars) : Prop :=
  (v_state v = DETECTING ->
   0 <= detectionStartIdx v <= Z.of_nat k /\
   forall j : nat, detectionStartIdx v <= Z.of_nat j <= Z.of_nat k ->
     exists r, rows !! j = Some r /\ (ssiEngage params <= computed_css r)%Q) /\
  (v_state v = MITIGATING \/ v_state v = RECOVERING ->
   holdoffSamples params <= Z.of_nat k).

(** In RECOVERING the recorded start of the recovery is not in the future. *)
Definition recovering_since (k : nat) (v : Vars) : Prop :=
  v_state v = RECOVERING -> recoveryStartIdx v <= Z.of_nat k.

(** A natural number as a rational. *)
Definition Qnat (n : nat) : Q := inject_Z (Z.of_nat n).

(** A mitigation followed by a long quiet stretch. *)
Definition recovery_run : list ProcessedRow :=
  mitigation_run ++ replicate 134 (sample_with_css 0.1).

(** Both cursors are valid indices and the displayed one is not ahead of the
    animated one. *)
Definition cursor_in_range (e : Engine) : Prop :=
  0 <= cursorIdx (e_playback e)
  /\ cursorIdx (e_playback e) <= cursorIdxRef (e_playback e)
  /\ cursorIdxRef (e_playback e) <= Z.of_nat (length (e_processed e)) - 1.

(** Every severity of the array lies in [0,1]. *)
Definition css_in_unit (processed : list ProcessedRow) : Prop :=
  Forall (fun r => (0 <= computed_css r <= 1)%Q) processed.

(** Every array installed by the actions satisfies [P]. *)
Fixpoint arrays_satisfy (P : list ProcessedRow -> Prop) (actions : list Action)
    : Prop :=
  match actions with
  | [] => True
  | Recomputed processed' :: rest => P processed' /\ arrays_satisfy P rest
  | _ :: rest => arrays_satisfy P rest
  end.

(** A short session at the controls. *)
Definition sample_session : list Action :=
  [PlayPause; Frame 100; Frame 120; SetSpeed 3; Frame 130; Frame 150;
   Scrub 2; Recomputed [sample_with_css 0.4]; JumpToEnd; PlayPause].

(** ** LiveChart.tsx: the rows handed to the chart *)

Definition MAX_POINTS : Z := 500.

(** [step = Math.max(1, Math.ceil(data.length / MAX_POINTS))] *)
Definition chart_step (data : list ProcessedRow) : Z :=
  Z.max 1 (Qceiling (inject_Z (Z.of_nat (length data)) / inject_Z MAX_POINTS)).

(** [arr.map((x, i) => f(x, i))], from index [i] on. *)
Fixpoint map_indexed {A B : Type} (f : A -> Z -> B) (i : Z) (arr : list A)
    : list B :=
  match arr with
  | [] => []
  | x :: rest => f x i :: map_indexed f (i + 1) rest
  end.

(** One chart point.  The raw channels [mwd], [rpm], [torque] and [wob] are
    copied from the row like [elapsed_s]; [rpm_sp] and [wob_sp] are
    [ctrl?.rpm_setpoint ?? null] and [ctrl?.wob_setpoint ?? null]. *)
Record ChartPoint : Type := {
  c_elapsed_s : Q;
  c_css : Q;
  c_rpm_sp : option Q;
  c_wob_sp : option Q
}.

(** [chartData]: every [step]-th row, paired with the controller output at
    [Math.min(i * step, controlOutputs.length - 1)]. *)
Definition chartData (data : list ProcessedRow)
    (controlOutputs : list ControllerOutput) : list ChartPoint :=
  let step := chart_step data in
  map_indexed
    (fun r i =>
       let ctrlIdx := Z.min (i * step) (Z.of_nat (length controlOutputs) - 1) in
       let ctrl := Js.index controlOutputs ctrlIdx in
       {| c_elapsed_s := elapsed_s (telemetry r);
          c_css := computed_css r;
          c_rpm_sp := rpm_setpoint <$> ctrl;
          c_wob_sp := wob_setpoint <$> ctrl |})
    0
    (filter_indexed (fun _ i => i mod step =? 0) 0 data).

(** ** utils.ts: [formatDuration] *)

(** [Math.round(x)]: the nearest integer, halves rounded up. *)
Definition js_round (x : Q) : Z := Qfloor (x + (1 # 2))%Q.

(** [Math.trunc], and the remainder [a % b], which takes the sign of the
    dividend: [a - b * trunc(a / b)]. *)
Definition js_trunc (x : Q) : Z :=
  if Js.ltb x 0 then Qceiling x else Qfloor x.

Definition js_rem (a b : Q) : Q := (a - b * inject_Z (js_trunc (a / b)))%Q.

(** The three template strings of [formatDuration], with the integers that
    are interpolated into them: [`${sec}s`], [`${m}m ${sec}s`] and
    [`${h}h ${m}m`]. *)
Inductive DurationText : Type :=
  | SecondsText (sec : Z)
  | MinutesText (m sec : Z)
  | HoursText (h m : Z).

Definition formatDuration (s : Q) : DurationText :=
  if Js.ltb s 60 then SecondsText (js_round s)
  else if Js.ltb s 3600
       then MinutesText (Qfloor (s / 60)) (js_round (js_rem s 60))
       else
         let h := Qfloor (s / 3600) in
         let m := Qfloor (js_rem s 3600 / 60) in
         HoursText h m.

(** ** Facts about the numeric primitives *)

Lemma geb_true (a b : Q) : Js.geb a b = true <-> (b <= a)%Q.
Proof. unfold Js.geb. apply Qle_bool_iff. Qed.

Lemma geb_false (a b : Q) : Js.geb a b = false <-> (a < b)%Q.
Proof.
  unfold Js.geb. split; intros H.
  - apply Qnot_le_lt. intros Hle. apply Qle_bool_iff in Hle. congruence.
  - destruct (Qle_bool b a) eqn:E; [|reflexivity].
    apply Qle_bool_iff in E. exfalso. exact (Qlt_not_le _ _ H E).
Qed.

Lemma ltb_true (a b : Q) : Js.ltb a b = true <-> (a < b)%Q.
Proof.
  unfold Js.ltb. rewrite Qlt_alt.
  destruct (a ?= b)%Q; split; congruence.
Qed.

Lemma ltb_negb_geb (a b : Q) : Js.ltb a b = negb (Js.geb a b).
Proof.
  destruct (Js.geb a b) eqn:G; simpl.
  - apply geb_true in G. destruct (Js.ltb a b) eqn:L; [|reflexivity].
    apply ltb_true in L. exfalso. exact (Qlt_not_le _ _ L G).
  - apply geb_false in G. apply ltb_true. exact G.
Qed.

Lemma gtb_true (a b : Q) : Js.gtb a b = true <-> (b < a)%Q.
Proof. unfold Js.gtb. apply ltb_true. Qed.

Lemma max_lower_l (a b : Q) : (a <= Js.max a b)%Q.
Proof. apply Q.le_max_l. Qed.

Lemma max_lower_r (a b : Q) : (b <= Js.max a b)%Q.
Proof. apply Q.le_max_r. Qed.

Lemma max_upper (a b c : Q) : (a <= c)%Q -> (b <= c)%Q -> (Js.max a b <= c)%Q.
Proof. apply Q.max_lub. Qed.

Lemma min_upper_l (a b : Q) : (Js.min a b <= a)%Q.
Proof. apply Q.le_min_l. Qed.

Lemma min_upper_r (a b : Q) : (Js.min a b <= b)%Q.
Proof. apply Q.le_min_r. Qed.

Lemma min_lower (a b c : Q) : (c <= a)%Q -> (c <= b)%Q -> (c <= Js.min a b)%Q.
Proof. apply Q.min_glb. Qed.

Lemma index_nat {A : Type} (arr : list A) (k : nat) :
  Js.index arr (Z.of_nat k) = arr !! k.
Proof.
  unfold Js.index. destruct (Z.ltb_spec (Z.of_nat k) 0); [lia|].
  by rewrite Nat2Z.id.
Qed.

Lemma index_negative {A : Type} (arr : list A) (j : Z) :
  j < 0 -> Js.index arr j = None.
Proof. intros H. unfold Js.index. by destruct (Z.ltb_spec j 0); [|lia]. Qed.

(** ** Event detection: the sustained window *)

Lemma window_all_spec (rawFlag : list bool) (steps : nat) :
  forall j : Z,
    window_all rawFlag j steps = true <->
    (forall k : Z, j <= k < j + Z.of_nat steps -> Js.index rawFlag k = Some true).
Proof.
  induction steps as [|n IH]; intros j; simpl.
  - split; [intros _ k Hk; lia | reflexivity].
  - destruct (Js.index rawFlag j) as [[|]|] eqn:E; simpl.
    + rewrite IH. split; intros H k Hk.
      * destruct (Z.eq_dec k j) as [->|Hne]; [exact E | apply H; lia].
      * apply H; lia.
    + split; [discriminate|]. intros H.
      specialize (H j ltac:(lia)). congruence.
    + split; [discriminate|]. intros H.
      specialize (H j ltac:(lia)). congruence.
Qed.

Lemma set_length {A : Type} (arr : list A) (j : Z) (x : A) :
  length (Js.set arr j x) = length arr.
Proof. unfold Js.set. destruct (j <? 0); [reflexivity | apply length_insert]. Qed.

Lemma set_lookup {A : Type} (arr : list A) (j : Z) (x y : A) (k : nat) :
  arr !! k = Some y ->
  Js.set arr j x !! k = Some (if j =? Z.of_nat k then x else y).
Proof.
  intros Hk. unfold Js.set.
  destruct (Z.ltb_spec j 0) as [Hneg|Hpos].
  - destruct (Z.eqb_spec j (Z.of_nat k)); [lia | exact Hk].
  - destruct (Z.eqb_spec j (Z.of_nat k)) as [->|Hne].
    + rewrite Nat2Z.id. apply list_lookup_insert_eq.
      apply lookup_lt_is_Some. eauto.
    + rewrite list_lookup_insert_ne; [exact Hk | lia].
Qed.

Lemma sustain_loop_length (rawFlag : list bool) (w : Z) (steps : nat) :
  forall (i : Z) (sustained : list bool),
    length (sustain_loop rawFlag w i steps sustained) = length sustained.
Proof.
  induction steps as [|n IH]; intros i sustained; simpl; [reflexivity|].
  rewrite IH. destruct (window_all _ _ _); [apply set_length | reflexivity].
Qed.

Lemma sustain_loop_lookup (rawFlag : list bool) (w : Z) (steps : nat) :
  forall (i : Z) (sustained : list bool) (k : nat) (b : bool),
    sustained !! k = Some b ->
    sustain_loop rawFlag w i steps sustained !! k =
    Some (if (i <=? Z.of_nat k) && (Z.of_nat k <? i + Z.of_nat steps)
             && window_all rawFlag (Z.of_nat k - w + 1) (Z.to_nat w)
          then true else b).
Proof.
  induction steps as [|n IH]; intros i sustained k b Hk.
  - cbn [sustain_loop]. rewrite Hk. f_equal. zcases; simpl; try reflexivity; lia.
  - cbn [sustain_loop].
    destruct (window_all rawFlag (i - w + 1) (Z.to_nat w)) eqn:W.
    + rewrite (IH _ _ k (if i =? Z.of_nat k then true else b))
        by (by apply set_lookup).
      f_equal. destruct (Z.eqb_spec i (Z.of_nat k)) as [->|Hne].
      * rewrite W. zcases; simpl; try reflexivity; lia.
      * destruct (window_all rawFlag (Z.of_nat k - w + 1) (Z.to_nat w));
          zcases; simpl; try reflexivity; lia.
    + rewrite (IH _ _ k b Hk). f_equal.
      destruct (Z.eq_dec i (Z.of_nat k)) as [->|Hne].
      * rewrite W. by rewrite !andb_false_r.
      * destruct (window_all rawFlag (Z.of_nat k - w + 1) (Z.to_nat w));
          zcases; simpl; try reflexivity; lia.
Qed.

Lemma sustained_flags_length (rawFlag : list bool) (w : Z) :
  length (sustained_flags rawFlag w) = length rawFlag.
Proof.
  unfold sustained_flags. rewrite sustain_loop_length. apply length_replicate.
Qed.

Lemma sustained_flags_lookup (rawFlag : list bool) (w : Z) (k : nat) :
  (k < length rawFlag)%nat ->
  sustained_flags rawFlag w !! k =
  Some ((w - 1 <=? Z.of_nat k)
        && window_all rawFlag (Z.of_nat k - w + 1) (Z.to_nat w)).
Proof.
  intros Hk. unfold sustained_flags.
  rewrite (sustain_loop_lookup _ _ _ _ _ k false)
    by (by apply lookup_replicate_2).
  f_equal.
  destruct (window_all rawFlag (Z.of_nat k - w + 1) (Z.to_nat w));
    zcases; simpl; try reflexivity; lia.
Qed.

(** C3.  For every severity sequence, threshold and window
    [minSustainSamples >= 1], with [raw[i] = (severities[i] >= threshold)]:
    the result has one flag per sample; [sustained[i]] is true exactly when
    every raw flag at the indices [i - w + 1 .. i] exists and is true; it is
    false for every [i < w - 1]; and a window of one sample makes
    [sustained] equal to [raw]. *)
Theorem sustained_iff_trailing_window
    (severities : list Q) (threshold : Q) (w : Z) :
  1 <= w ->
  let raw := map (fun s => Js.geb s threshold) severities in
  let sustained := sustained_flags raw w in
  length sustained = length severities /\
  (forall i : Z, 0 <= i < Z.of_nat (length severities) ->
     (Js.index sustained i = Some true <->
      forall j : Z, i - w + 1 <= j <= i -> Js.index raw j = Some true)) /\
  (forall i : Z, 0 <= i < Z.of_nat (length severities) -> i < w - 1 ->
     Js.index sustained i = Some false) /\
  (w = 1 -> sustained = raw).
Proof.
  intros Hw raw sustained.
  assert (Hlen : length raw = length severities) by apply length_map.
  assert (Hlook : forall k : nat, (k < length severities)%nat ->
            Js.index sustained (Z.of_nat k) =
            Some ((w - 1 <=? Z.of_nat k)
                  && window_all raw (Z.of_nat k - w + 1) (Z.to_nat w))).
  { intros k Hk. rewrite index_nat. apply sustained_flags_lookup. lia. }
  split; [|split; [|split]].
  - unfold sustained. rewrite sustained_flags_length. exact Hlen.
  - intros i Hi. rewrite <- (Z2Nat.id i) by lia.
    rewrite Hlook by lia. rewrite Z2Nat.id by lia.
    split.
    + intros H. injection H as H. apply andb_true_iff in H as [_ H].
      rewrite window_all_spec in H. intros j Hj. apply H. lia.
    + intros H. f_equal. apply andb_true_iff. split.
      * apply Z.leb_le.
        destruct (Z_lt_le_dec (i - w + 1) 0) as [Hneg|]; [|lia].
        specialize (H (i - w + 1) ltac:(lia)).
        rewrite index_negative in H by exact Hneg. discriminate.
      * apply window_all_spec. intros j Hj. apply H. lia.
  - intros i Hi Hlt. rewrite <- (Z2Nat.id i) by lia.
    rewrite Hlook by lia. rewrite Z2Nat.id by lia.
    by destruct (Z.leb_spec (w - 1) i); [lia|].
  - intros ->. apply list_eq. intros k.
    destruct (decide (k < length raw)%nat) as [Hk|Hk].
    + unfold sustained. rewrite sustained_flags_lookup by exact Hk.
      destruct (raw !! k) as [b|] eqn:E.
      2:{ apply lookup_ge_None in E. lia. }
      f_equal. destruct (Z.leb_spec (1 - 1) (Z.of_nat k)); [|lia].
      simpl. replace (Z.of_nat k - 1 + 1) with (Z.of_nat k) by lia.
      rewrite index_nat, E. by destruct b.
    + rewrite (proj2 (lookup_ge_None raw k)) by lia.
      apply lookup_ge_None. unfold sustained.
      rewrite sustained_flags_length. lia.
Qed.

(** The spec's second example: threshold 0.25, window 3, raw flags
    [F, T, T, T, F]. *)
Lemma sustained_iff_trailing_window_witness :
  1 <= 3 /\
  Js.index
    (sustained_flags (map (fun s => Js.geb s 0.25) [0.1; 0.3; 0.3; 0.3; 0.1]%Q) 3)
    1 = Some false.
Proof.
  split; [lia|].
  apply (sustained_iff_trailing_window [0.1; 0.3; 0.3; 0.3; 0.1]%Q 0.25 3);
    simpl; lia.
Defined.

Example sustained_example_2 :
  sustained_flags (map (fun s => Js.geb s 0.25) [0.1; 0.3; 0.3; 0.3; 0.1]%Q) 3
  = [false; false; false; true; false].
Proof. reflexivity. Qed.

(** ** Event detection: the event ids *)

Lemma event_step_eq (b : bool) (eventId : Z) (inEvent : bool) :
  event_step b eventId inEvent =
  (eventId + (if b && negb inEvent then 1 else 0), b).
Proof.
  unfold event_step. destruct b, inEvent; simpl; f_equal; lia.
Qed.

Lemma event_loop_length (sustained : list bool) (processed : list ProcessedRow) :
  forall (i eventId : Z) (inEvent : bool),
    length (event_loop sustained i eventId inEvent processed) = length processed.
Proof.
  induction processed as [|r rest IH]; intros i eventId inEvent; simpl;
    [reflexivity|].
  destruct (event_step _ _ _). simpl. by rewrite IH.
Qed.

Lemma event_loop_css (sustained : list bool) (processed : list ProcessedRow) :
  forall (i eventId : Z) (inEvent : bool),
    map computed_css (event_loop sustained i eventId inEvent processed)
    = map computed_css processed.
Proof.
  induction processed as [|r rest IH]; intros i eventId inEvent; simpl;
    [reflexivity|].
  destruct (event_step _ _ _). simpl. by rewrite IH.
Qed.

(** The index-driven loop reads the flags in order: from index [i] on it
    sees exactly [drop i sustained]. *)
Lemma event_loop_view (sustained : list bool) (processed : list ProcessedRow) :
  forall (i : nat) (eventId : Z) (inEvent : bool),
    length processed = length (drop i sustained) ->
    map computed_flag
      (event_loop sustained (Z.of_nat i) eventId inEvent processed)
    = drop i sustained /\
    map computed_event_id
      (event_loop sustained (Z.of_nat i) eventId inEvent processed)
    = ids_from (drop i sustained) eventId inEvent.
Proof.
  induction processed as [|r rest IH]; intros i eventId inEvent Hlen.
  - simpl in *. symmetry in Hlen. apply nil_length_inv in Hlen.
    rewrite Hlen. by split.
  - destruct (sustained !! i) as [b|] eqn:E.
    2:{ apply lookup_ge_None in E. rewrite drop_ge in Hlen by exact E.
        discriminate. }
    rewrite (drop_S _ _ _ E) in *. simpl in Hlen.
    cbn [event_loop ids_from]. rewrite index_nat, E.
    replace (Js.truthy (Some b)) with b by (by destruct b).
    destruct (event_step b eventId inEvent) as [eventId' inEvent'].
    replace (Z.of_nat i + 1) with (Z.of_nat (S i)) by lia.
    destruct (IH (S i) eventId' inEvent' ltac:(lia)) as [Hf Hi].
    cbn [map computed_flag computed_event_id]. rewrite Hf, Hi. by split.
Qed.

Lemma rising_edges_nonneg (s : list bool) :
  forall prev : bool, 0 <= rising_edges prev s.
Proof.
  induction s as [|b rest IH]; intros prev; simpl; [lia|].
  specialize (IH b). destruct (b && negb prev); lia.
Qed.

Lemma last_cons (rest : list bool) :
  forall b prev : bool, List.last (b :: rest) prev = List.last rest b.
Proof.
  induction rest as [|c rest IH]; intros b prev; [reflexivity|].
  change (List.last (b :: c :: rest) prev) with (List.last (c :: rest) prev).
  by rewrite !IH.
Qed.

Lemma rising_edges_app (s t : list bool) :
  forall prev : bool,
    rising_edges prev (s ++ t)
    = rising_edges prev s + rising_edges (List.last s prev) t.
Proof.
  induction s as [|b rest IH]; intros prev.
  - simpl. lia.
  - change ((b :: rest) ++ t) with (b :: (rest ++ t)).
    cbn [rising_edges]. rewrite IH, last_cons. lia.
Qed.

Lemma rising_edges_all_false (s : list bool) :
  Forall (fun b => b = false) s ->
  forall prev : bool, rising_edges prev s = 0.
Proof.
  induction 1 as [|b rest Hb _ IH]; intros prev; simpl; [reflexivity|].
  subst b. simpl. apply IH.
Qed.

Lemma last_all_false (s : list bool) (prev : bool) :
  Forall (fun b => b = false) s -> s <> [] -> List.last s prev = false.
Proof.
  induction 1 as [|b rest Hb Hrest IH]; intros Hne; [congruence|].
  destruct rest as [|c rest]; [exact Hb|].
  change (List.last (b :: c :: rest) prev) with (List.last (c :: rest) prev).
  apply IH. discriminate.
Qed.

Lemma ids_from_length (s : list bool) :
  forall (eventId : Z) (inEvent : bool),
    length (ids_from s eventId inEvent) = length s.
Proof.
  induction s as [|b rest IH]; intros eventId inEvent; simpl; [reflexivity|].
  destruct (event_step _ _ _). simpl. by rewrite IH.
Qed.

(** Closed form of the id written at index [i]: zero outside events, and
    otherwise the starting counter plus the number of false-to-true
    transitions at indices [0 .. i]. *)
Lemma ids_from_lookup (s : list bool) :
  forall (eventId : Z) (inEvent : bool) (i : nat) (b : bool),
    s !! i = Some b ->
    ids_from s eventId inEvent !! i =
    Some (if b then eventId + rising_edges inEvent (take (S i) s) else 0).
Proof.
  induction s as [|c rest IH]; intros eventId inEvent i b Hi; [discriminate|].
  cbn [ids_from]. rewrite event_step_eq.
  destruct i as [|i].
  - injection Hi as ->. simpl. f_equal.
    destruct b; [|reflexivity]. destruct rest, inEvent; simpl; lia.
  - simpl in Hi. change ((_ :: ?l) !! S i) with (l !! i).
    rewrite (IH _ _ i b Hi). f_equal.
    change (take (S (S i)) (c :: rest)) with (c :: take (S i) rest).
    cbn [rising_edges]. destruct b; [lia | reflexivity].
Qed.

Lemma last_take_S (s : list bool) (i : nat) (b d : bool) :
  s !! i = Some b -> List.last (take (S i) s) d = b.
Proof.
  intros Hi. rewrite (take_S_r _ _ _ Hi). apply List.last_last.
Qed.

(** The id written at a sustained index, in terms of the flags before it. *)
Lemma rising_edges_take_S (s : list bool) (i : nat) (b : bool) :
  s !! i = Some b ->
  rising_edges false (take (S i) s)
  = rising_edges false (take i s)
    + (if b && negb (List.last (take i s) false) then 1 else 0).
Proof.
  intros Hi. rewrite (take_S_r _ _ _ Hi), rising_edges_app. simpl. lia.
Qed.

Lemma rising_edges_positive (s : list bool) :
  forall k : nat, s !! k = Some true -> 1 <= rising_edges false s.
Proof.
  induction s as [|b rest IH]; intros k Hk; [discriminate|].
  cbn [rising_edges]. destruct b; simpl.
  - pose proof (rising_edges_nonneg rest true). lia.
  - destruct k as [|k]; [discriminate|]. exact (IH k Hk).
Qed.

(** C4.  For every sustained sequence (and rows of the same length), step 3
    copies the flags and writes ids such that: the id is 0 exactly where
    the flag is false; a sustained index carries the number of false-to-true
    transitions met so far, so the first event has id 1 and each later
    transition carries the previous event's id plus exactly one; and the id
    is constant along every contiguous run of sustained samples. *)
Theorem event_ids_follow_sustained
    (sustained : list bool) (processed : list ProcessedRow) :
  length processed = length sustained ->
  let out := event_loop sustained 0 0 false processed in
  let ids := map computed_event_id out in
  map computed_flag out = sustained /\
  length ids = length sustained /\
  (forall (i : nat) (b : bool) (id : Z),
     sustained !! i = Some b -> ids !! i = Some id -> (id = 0 <-> b = false)) /\
  (forall i : nat, sustained !! i = Some true ->
     ids !! i = Some (rising_edges false (take (S i) sustained))) /\
  (forall i : nat, sustained !! i = Some true ->
     (forall k : nat, (k < i)%nat -> sustained !! k = Some false) ->
     ids !! i = Some 1) /\
  (forall (j i : nat) (idj : Z),
     (S j < i)%nat ->
     sustained !! j = Some true ->
     (forall k : nat, (j < k < i)%nat -> sustained !! k = Some false) ->
     sustained !! i = Some true ->
     ids !! j = Some idj ->
     ids !! i = Some (idj + 1)) /\
  (forall i j : nat, (i <= j)%nat ->
     (forall k : nat, (i <= k <= j)%nat -> sustained !! k = Some true) ->
     ids !! j = ids !! i).
Proof.
  intros Hlen out ids.
  destruct (event_loop_view sustained processed 0 0 false) as [Hflags Hids];
    [by rewrite drop_0|].
  rewrite drop_0 in Hflags, Hids. change (Z.of_nat 0) with 0 in Hflags, Hids.
  fold out in Hflags, Hids. fold ids in Hids.
  assert (Hlook : forall (i : nat) (b : bool), sustained !! i = Some b ->
            ids !! i =
            Some (if b then rising_edges false (take (S i) sustained) else 0)).
  { intros i b Hi. rewrite Hids, (ids_from_lookup _ 0 false i b Hi).
    by destruct b. }
  assert (Hfalse_prefix : forall (lo hi : nat),
            (forall k : nat, (lo <= k < hi)%nat -> sustained !! k = Some false) ->
            Forall (fun b => b = false) (drop lo (take hi sustained))).
  { intros lo hi H. apply Forall_lookup. intros k x Hk.
    rewrite lookup_drop, lookup_take in Hk.
    destruct (decide (lo + k < hi)%nat) as [Hlt|]; [|discriminate].
    rewrite (H (lo + k)%nat ltac:(lia)) in Hk. congruence. }
  assert (Hone : forall i : nat, sustained !! i = Some true ->
            (i = 0%nat \/ exists p, i = S p /\ sustained !! p = Some false) ->
            rising_edges false (take (S i) sustained)
            = rising_edges false (take i sustained) + 1).
  { intros i Hi Hprev. rewrite (rising_edges_take_S _ _ _ Hi).
    destruct Hprev as [->|(p & -> & Hp)]; [reflexivity|].
    by rewrite (last_take_S _ _ _ _ Hp). }
  repeat split.
  - exact Hflags.
  - rewrite Hids. apply ids_from_length.
  - intros ->. destruct b; [|reflexivity].
    rewrite (Hlook _ _ H) in H0. injection H0 as H0.
    assert (Hi : take (S i) sustained !! i = Some true).
    { rewrite lookup_take. by destruct (decide (i < S i)%nat); [|lia]. }
    pose proof (rising_edges_positive _ _ Hi). lia.
  - intros ->. rewrite (Hlook _ _ H) in H0. congruence.
  - intros i Hi. by rewrite (Hlook _ _ Hi).
  - intros i Hi Hbefore. rewrite (Hlook _ _ Hi). f_equal.
    rewrite Hone; [|exact Hi|].
    + rewrite rising_edges_all_false; [reflexivity|].
      rewrite <- (drop_0 (take i sustained)). apply Hfalse_prefix.
      intros k Hk. apply Hbefore. lia.
    + destruct i as [|p]; [by left|]. right. exists p. split; [reflexivity|].
      apply Hbefore. lia.
  - intros j i idj Hji Hj Hbetween Hi Hidj.
    rewrite (Hlook _ _ Hj) in Hidj. injection Hidj as <-.
    rewrite (Hlook _ _ Hi). f_equal.
    rewrite Hone; [|exact Hi|].
    + f_equal.
      rewrite <- (take_drop (S j) (take i sustained)) at 1.
      rewrite take_take, Nat.min_l by lia. rewrite rising_edges_app.
      rewrite (rising_edges_all_false (drop (S j) (take i sustained))); [lia|].
      apply Hfalse_prefix. intros k Hk. apply Hbetween. lia.
    + destruct i as [|p]; [lia|]. right. exists p. split; [reflexivity|].
      apply Hbetween. lia.
  - intros i j Hij Hrun. induction j as [|j IH].
    + by replace i with 0%nat by lia.
    + destruct (decide (i = S j)) as [->|Hne]; [reflexivity|].
      rewrite <- IH by (try lia; intros k Hk; apply Hrun; lia).
      pose proof (Hrun j ltac:(lia)) as Hj.
      pose proof (Hrun (S j) ltac:(lia)) as HSj.
      rewrite (Hlook _ _ Hj), (Hlook _ _ HSj). f_equal.
      rewrite (rising_edges_take_S _ (S j) _ HSj).
      rewrite (last_take_S _ _ _ _ Hj). simpl. lia.
Qed.

(** The flags [F, F, F, T, F] of the spec's second example. *)
Lemma event_ids_follow_sustained_witness :
  length (map sample_with_css [0.1; 0.3; 0.3; 0.3; 0.1]%Q)
  = length [false; false; false; true; false] /\
  map computed_flag
    (event_loop [false; false; false; true; false] 0 0 false
       (map sample_with_css [0.1; 0.3; 0.3; 0.3; 0.1]%Q))
  = [false; false; false; true; false].
Proof.
  split; [reflexivity|].
  apply (event_ids_follow_sustained [false; false; false; true; false]
           (map sample_with_css [0.1; 0.3; 0.3; 0.3; 0.1]%Q)).
  reflexivity.
Defined.

Example event_ids_example_2 :
  map computed_event_id
    (event_loop [false; false; false; true; false] 0 0 false
       (map sample_with_css [0.1; 0.3; 0.3; 0.3; 0.1]%Q))
  = [0; 0; 0; 1; 0].
Proof. reflexivity. Qed.

Example event_ids_two_events :
  map computed_event_id
    (event_loop [true; true; false; true; false; false; true] 0 0 false
       (map sample_with_css [0; 0; 0; 0; 0; 0; 0]%Q))
  = [1; 1; 0; 2; 0; 0; 3].
Proof. reflexivity. Qed.

(** What [recompute] returns, field by field, in terms of the three steps. *)
Lemma recompute_fields (rows : list TelemetryRow) (params : DetectionParams) :
  let total := (mwdWeight params + torqueWeight params + rpmWeight params)%Q in
  let css :=
    map (css_of (mwdWeight params / total) (torqueWeight params / total)
                (rpmWeight params / total)) rows in
  let sustained :=
    sustained_flags (map (fun s => Js.geb s (cssThreshold params)) css)
      (minDurationSamples params) in
  length (recompute rows params) = length rows /\
  map computed_css (recompute rows params) = css /\
  map computed_flag (recompute rows params) = sustained /\
  map computed_event_id (recompute rows params) = ids_from sustained 0 false.
Proof.
  intros total css sustained. unfold recompute. fold total.
  set (processed := map (score_row _ _ _) rows).
  assert (Hcss : map computed_css processed = css).
  { unfold processed, css. rewrite map_map. reflexivity. }
  assert (Hraw :
    rawFlags processed (cssThreshold params)
    = map (fun s => Js.geb s (cssThreshold params)) css).
  { unfold rawFlags. rewrite <- Hcss, map_map. reflexivity. }
  rewrite Hraw. fold sustained.
  assert (Hlen : length processed = length (drop 0 sustained)).
  { rewrite drop_0. unfold sustained. rewrite sustained_flags_length.
    unfold processed, css. by rewrite !length_map. }
  destruct (event_loop_view sustained processed 0 0 false Hlen) as [Hf Hi].
  rewrite drop_0 in Hf, Hi. change (Z.of_nat 0) with 0 in Hf, Hi.
  repeat split.
  - rewrite event_loop_length. unfold processed. apply length_map.
  - by rewrite event_loop_css.
  - exact Hf.
  - exact Hi.
Qed.

(** ** Severity score *)

Lemma css_of_le_1 (wMwd wTorque wRpm : Q) (r : TelemetryRow) :
  (css_of wMwd wTorque wRpm r <= 1)%Q.
Proof. unfold css_of. apply min_upper_l. Qed.

Lemma css_of_nonneg (wMwd wTorque wRpm : Q) (r : TelemetryRow) :
  (0 <= wMwd)%Q -> (0 <= wTorque)%Q -> (0 <= wRpm)%Q ->
  absent_or_nonneg (mwd_ssi r) ->
  (0 <= css_of wMwd wTorque wRpm r)%Q.
Proof.
  intros HM HT HR Hmwd. unfold css_of. apply min_lower; [lra|].
  assert (H1 : (0 <= Js.nullish (mwd_ssi r) 0 * wMwd)%Q).
  { apply Qmult_le_0_compat; [|exact HM].
    destruct (mwd_ssi r); simpl in *; [exact Hmwd | lra]. }
  assert (H2 : (0 <= Js.max 0 (Js.min 1 (Js.nullish (torque_deviation r) 0 * 0.5))
                     * wTorque)%Q).
  { apply Qmult_le_0_compat; [apply max_lower_l | exact HT]. }
  assert (H3 : (0 <= Js.max 0 (Js.min 1 (Js.nullish (rpm_ssi r) 0 * 0.5))
                     * wRpm)%Q).
  { apply Qmult_le_0_compat; [apply max_lower_l | exact HR]. }
  lra.
Qed.

Lemma valid_weights_total (p : DetectionParams) :
  valid_weights p ->
  (0 < mwdWeight p + torqueWeight p + rpmWeight p)%Q.
Proof.
  intros (HM & HT & HR & Hnz).
  apply Qnot_le_lt. intros Hle. apply Hnz.
  repeat split; apply Qle_antisym; lra.
Qed.

Lemma normalised_nonneg (a total : Q) :
  (0 <= a)%Q -> (0 < total)%Q -> (0 <= a / total)%Q.
Proof. intros Ha Ht. apply Qle_shift_div_l; [exact Ht | lra]. Qed.


Lemma mwd_only_valid : valid_weights mwd_only.
Proof.
  unfold valid_weights, mwd_only. simpl.
  split; [lra|]. split; [lra|]. split; [lra|].
  intros (H & _). revert H. vm_compute. discriminate.
Qed.



(** ** Configuration errors *)

Lemma controller_loop_length (params : ControllerParams)
    (nominalWob nominalRpm : Q) (rows : list ProcessedRow) :
  forall (i : Z) (v : Vars),
    length (controller_loop params nominalWob nominalRpm i v rows) = length rows.
Proof.
  induction rows as [|r rest IH]; intros i v; simpl; [reflexivity|].
  by rewrite IH.
Qed.



(** ** Controller state machine *)

Section ControllerFacts.

Variable params : ControllerParams.
Variables nominalWob nominalRpm : Q.

Lemma controller_loop_trace (rows : list ProcessedRow) :
  forall (i : Z) (v : Vars),
    controller_loop params nominalWob nominalRpm i v rows = map output_of (vars_trace params nominalWob nominalRpm i v rows).
Proof.
  induction rows as [|r rest IH]; intros i v; simpl; [reflexivity|].
  by rewrite IH.
Qed.

Lemma trace_first (rows : list ProcessedRow) (i : Z) (v v0 : Vars) :
  vars_trace params nominalWob nominalRpm i v rows !! 0%nat = Some v0 ->
  exists r, rows !! 0%nat = Some r /\ v0 = controller_step params nominalWob nominalRpm i (computed_css r) v.
Proof.
  destruct rows as [|r rest]; simpl; [discriminate|].
  intros [= <-]. by exists r.
Qed.

(** Consecutive iterations: the variables after iteration [k + 1] are one
    controller_step params nominalWob nominalRpm from those after iteration [k]. *)
Lemma trace_next (rows : list ProcessedRow) :
  forall (i : Z) (v : Vars) (k : nat) (v2 : Vars),
    vars_trace params nominalWob nominalRpm i v rows !! S k = Some v2 ->
    exists (v1 : Vars) (r : ProcessedRow),
      vars_trace params nominalWob nominalRpm i v rows !! k = Some v1 /\
      rows !! S k = Some r /\
      v2 = controller_step params nominalWob nominalRpm (i + Z.of_nat (S k)) (computed_css r) v1.
Proof.
  induction rows as [|r0 rest IH]; intros i v k v2 H; [discriminate|].
  cbn [vars_trace] in *.
  change ((?x :: ?l) !! S k) with (l !! k) in *.
  destruct k as [|k].
  - destruct (trace_first _ _ _ _ H) as (r & Hr & ->).
    exists (controller_step params nominalWob nominalRpm i (computed_css r0) v), r.
    split; [reflexivity|]. split; [exact Hr|]. f_equal; lia.
  - destruct (IH _ _ _ _ H) as (v1 & r & H1 & Hr & ->).
    exists v1, r. split; [exact H1|]. split; [exact Hr|]. f_equal; lia.
Qed.

Lemma trace_invariant (P : Vars -> Prop) :
  (forall (i : Z) (css : Q) (v : Vars), P v -> P (controller_step params nominalWob nominalRpm i css v)) ->
  forall (rows : list ProcessedRow) (i : Z) (v : Vars),
    P v -> Forall P (vars_trace params nominalWob nominalRpm i v rows).
Proof.
  intros Hstep rows. induction rows as [|r rest IH]; intros i v Hv; simpl.
  - constructor.
  - constructor; [by apply Hstep|]. apply IH. by apply Hstep.
Qed.

Lemma output_lookup (rows : list ProcessedRow) (i : Z) (v : Vars)
    (k : nat) (o : ControllerOutput) :
  controller_loop params nominalWob nominalRpm i v rows !! k = Some o ->
  exists vk, vars_trace params nominalWob nominalRpm i v rows !! k = Some vk /\ o = output_of vk.
Proof.
  rewrite controller_loop_trace. intros H.
  change (map output_of ?l) with (output_of <$> l) in H.
  rewrite list_lookup_fmap in H.
  destruct (vars_trace params nominalWob nominalRpm i v rows !! k) as [vk|]; [|discriminate].
  injection H as <-. by exists vk.
Qed.

Lemma step_from_mitigating (i : Z) (css : Q) (v : Vars) :
  v_state v = MITIGATING ->
  (v_state (controller_step params nominalWob nominalRpm i css v) = MITIGATING \/ v_state (controller_step params nominalWob nominalRpm i css v) = RECOVERING)
  /\ wobSp (controller_step params nominalWob nominalRpm i css v) = mitigating_wob params nominalWob css
  /\ rpmSp (controller_step params nominalWob nominalRpm i css v) = mitigating_rpm params nominalRpm css.
Proof.
  intros Hs. unfold controller_step. rewrite Hs.
  destruct (Js.ltb css (ssiRecovery params)); simpl; auto.
Qed.

End ControllerFacts.

(** C7.  In the left-to-right pass the state never steps from MITIGATING to
    DETECTING (nor to NORMAL): if the output at sample [i] is MITIGATING, the
    output at sample [i + 1] is MITIGATING or RECOVERING. *)
Theorem mitigating_never_steps_to_detecting
    (params : ControllerParams) (nominalWob nominalRpm : Q)
    (rows : list ProcessedRow) (i : nat) (o o' : ControllerOutput) :
  runController params nominalWob nominalRpm rows !! i = Some o ->
  runController params nominalWob nominalRpm rows !! S i = Some o' ->
  state o = MITIGATING ->
  state o' = MITIGATING \/ state o' = RECOVERING.
Proof.
  unfold runController. intros Ho Ho' Hs.
  destruct (output_lookup _ _ _ _ _ _ _ _ Ho) as (v1 & Hv1 & ->).
  destruct (output_lookup _ _ _ _ _ _ _ _ Ho') as (v2 & Hv2 & ->).
  destruct (trace_next _ _ _ _ _ _ _ _ Hv2) as (v1' & r & Hv1' & _ & ->).
  rewrite Hv1 in Hv1'. injection Hv1' as <-.
  simpl in *. by apply step_from_mitigating.
Qed.

Example mitigation_run_states :
  map state (runController quick_controller 100 120 mitigation_run)
  = [DETECTING; MITIGATING; MITIGATING; MITIGATING; RECOVERING].
Proof. reflexivity. Qed.

Lemma mitigating_never_steps_to_detecting_witness :
  exists o o' : ControllerOutput,
    runController quick_controller 100 120 mitigation_run !! 3%nat = Some o /\
    runController quick_controller 100 120 mitigation_run !! 4%nat = Some o' /\
    state o = MITIGATING /\
    (state o' = MITIGATING \/ state o' = RECOVERING).
Proof.
  eexists. eexists.
  split; [reflexivity|]. split; [reflexivity|]. split; [reflexivity|].
  eapply (mitigating_never_steps_to_detecting quick_controller 100 120
            mitigation_run 3); reflexivity.
Defined.



(** C5.  The pass starts from state NORMAL: the first output is DETECTING
    when [rows[0]] reaches the engage threshold and NORMAL otherwise.  An
    iteration taken in DETECTING goes to NORMAL when [css < ssiEngage];
    otherwise it goes to MITIGATING when
    [i - detectionStartIdx >= holdoffSamples] and stays as it is when not.
    With engage threshold 0.25 and hold-off 2, severities
    [0.1, 0.3, 0.3, 0.3] give NORMAL, DETECTING, DETECTING, MITIGATING. *)
Theorem detecting_transitions
    (params : ControllerParams) (nominalWob nominalRpm : Q) :
  v_state (initial_vars nominalWob nominalRpm) = NORMAL /\
  (forall (rows : list ProcessedRow) (r : ProcessedRow) (o : ControllerOutput),
     rows !! 0%nat = Some r ->
     runController params nominalWob nominalRpm rows !! 0%nat = Some o ->
     state o = if Js.geb (computed_css r) (ssiEngage params)
               then DETECTING else NORMAL) /\
  (forall (i : Z) (css : Q) (v : Vars),
     v_state v = DETECTING ->
     (css < ssiEngage params)%Q ->
     v_state (controller_step params nominalWob nominalRpm i css v) = NORMAL) /\
  (forall (i : Z) (css : Q) (v : Vars),
     v_state v = DETECTING ->
     (ssiEngage params <= css)%Q ->
     holdoffSamples params <= i - detectionStartIdx v ->
     v_state (controller_step params nominalWob nominalRpm i css v) = MITIGATING) /\
  (forall (i : Z) (css : Q) (v : Vars),
     v_state v = DETECTING ->
     (ssiEngage params <= css)%Q ->
     i - detectionStartIdx v < holdoffSamples params ->
     controller_step params nominalWob nominalRpm i css v = v) /\
  ((ssiEngage params == 0.25)%Q -> holdoffSamples params = 2 ->
   map state (runController params nominalWob nominalRpm holdoff_run)
   = [NORMAL; DETECTING; DETECTING; MITIGATING]).
Proof.
  split; [reflexivity|].
  split.
  { intros rows r o Hr Ho. destruct rows as [|r0 rest]; [discriminate|].
    simpl in Hr, Ho. injection Hr as ->. injection Ho as <-.
    unfold controller_step. simpl.
    by destruct (Js.geb (computed_css r) (ssiEngage params)). }
  split.
  { intros i css v Hs Hlt. unfold controller_step. rewrite Hs.
    by rewrite (proj2 (ltb_true _ _) Hlt). }
  split.
  { intros i css v Hs Hge Hhold. unfold controller_step. rewrite Hs.
    rewrite ltb_negb_geb, (proj2 (geb_true _ _) Hge). simpl.
    by destruct (Z.leb_spec (holdoffSamples params) (i - detectionStartIdx v));
      [|lia]. }
  split.
  { intros i css v Hs Hge Hhold. unfold controller_step. rewrite Hs.
    rewrite ltb_negb_geb, (proj2 (geb_true _ _) Hge). simpl.
    by destruct (Z.leb_spec (holdoffSamples params) (i - detectionStartIdx v));
      [lia|]. }
  intros He Hh.
  assert (Hlow : Js.geb 0.1 (ssiEngage params) = false)
    by (apply geb_false; lra).
  assert (Hhigh : Js.geb 0.3 (ssiEngage params) = true)
    by (apply geb_true; lra).
  unfold runController, holdoff_run.
  cbn [map controller_loop sample_with_css computed_css].
  set (v0 := controller_step _ _ _ 0 0.1 _).
  assert (E0 : v0 = initial_vars nominalWob nominalRpm).
  { unfold v0, controller_step. cbn [initial_vars v_state]. by rewrite Hlow. }
  clearbody v0. subst v0.
  set (v1 := controller_step _ _ _ (0 + 1) 0.3 _).
  assert (E1 : v1 = enter_detecting 1 (initial_vars nominalWob nominalRpm)).
  { unfold v1, controller_step. cbn [initial_vars v_state]. by rewrite Hhigh. }
  clearbody v1. subst v1.
  set (v2 := controller_step _ _ _ (0 + 1 + 1) 0.3 _).
  assert (E2 : v2 = enter_detecting 1 (initial_vars nominalWob nominalRpm)).
  { unfold v2, controller_step. cbn [enter_detecting v_state detectionStartIdx].
    by rewrite ltb_negb_geb, Hhigh, Hh. }
  clearbody v2. subst v2.
  set (v3 := controller_step _ _ _ (0 + 1 + 1 + 1) 0.3 _).
  assert (E3 : v3 = with_state MITIGATING
                      (enter_detecting 1 (initial_vars nominalWob nominalRpm))).
  { unfold v3, controller_step. cbn [enter_detecting v_state detectionStartIdx].
    by rewrite ltb_negb_geb, Hhigh, Hh. }
  clearbody v3. subst v3.
  reflexivity.
Qed.

Lemma detecting_transitions_witness :
  (ssiEngage
     {| ssiEngage := 0.25; ssiRecovery := 0.20; holdoffSamples := 2;
        kpWob := 0.30; wobMinFraction := 0.35; kpRpm := 0.15;
        rpmMaxIncrease := 25 |} == 0.25)%Q /\
  map state
    (runController
       {| ssiEngage := 0.25; ssiRecovery := 0.20; holdoffSamples := 2;
          kpWob := 0.30; wobMinFraction := 0.35; kpRpm := 0.15;
          rpmMaxIncrease := 25 |} 100 120 holdoff_run)
  = [NORMAL; DETECTING; DETECTING; MITIGATING].
Proof.
  split; [reflexivity|].
  apply (detecting_transitions
           {| ssiEngage := 0.25; ssiRecovery := 0.20; holdoffSamples := 2;
              kpWob := 0.30; wobMinFraction := 0.35; kpRpm := 0.15;
              rpmMaxIncrease := 25 |} 100 120); reflexivity.
Defined.

(** ** Actuator limits *)

Section Limits.

Variable params : ControllerParams.
Variables nominalWob nominalRpm : Q.

Hypothesis kpWob_nonneg : (0 <= kpWob params)%Q.
Hypothesis floor_le_1 : (wobMinFraction params <= 1)%Q.
Hypothesis kpRpm_nonneg : (0 <= kpRpm params)%Q.
Hypothesis maxIncrease_nonneg : (0 <= rpmMaxIncrease params)%Q.
Hypothesis nominalWob_nonneg : (0 <= nominalWob)%Q.

Lemma excess_nonneg (css : Q) : (0 <= excess_of params css)%Q.
Proof. apply max_lower_l. Qed.

Lemma floor_below_nominal :
  (nominalWob * wobMinFraction params <= nominalWob)%Q.
Proof. nra. Qed.

Lemma mitigating_within_limits (css : Q) :
  within_limits params nominalWob nominalRpm
    (mitigating_wob params nominalWob css) (mitigating_rpm params nominalRpm css).
Proof.
  pose proof (excess_nonneg css) as He.
  pose proof floor_below_nominal as Hf.
  assert (Hw : (0 <= kpWob params * excess_of params css * nominalWob)%Q).
  { apply Qmult_le_0_compat; [|exact nominalWob_nonneg].
    by apply Qmult_le_0_compat. }
  assert (Hr : (0 <= kpRpm params * excess_of params css * 10)%Q).
  { apply Qmult_le_0_compat; [|lra]. by apply Qmult_le_0_compat. }
  unfold within_limits, mitigating_wob, mitigating_rpm.
  split; [apply max_lower_l|].
  split; [apply max_upper; lra|].
  split; [apply min_lower; lra|].
  apply min_upper_l.
Qed.

Lemma ramp_within_limits (wob rpm : Q) :
  within_limits params nominalWob nominalRpm wob rpm ->
  within_limits params nominalWob nominalRpm
    (Js.min nominalWob (wob + 0.008 * nominalWob)%Q)
    (Js.max nominalRpm (rpm - 0.5)%Q).
Proof.
  pose proof floor_below_nominal as Hf.
  intros (H1 & H2 & H3 & H4). unfold within_limits.
  split; [apply min_lower; lra|].
  split; [apply min_upper_l|].
  split; [apply max_lower_l|].
  apply max_upper; lra.
Qed.

Lemma nominal_within_limits :
  within_limits params nominalWob nominalRpm nominalWob nominalRpm.
Proof.
  pose proof floor_below_nominal as Hf. unfold within_limits.
  repeat split; lra.
Qed.

Lemma step_within_limits (i : Z) (css : Q) (v : Vars) :
  within_limits params nominalWob nominalRpm (wobSp v) (rpmSp v) ->
  within_limits params nominalWob nominalRpm
    (wobSp (controller_step params nominalWob nominalRpm i css v))
    (rpmSp (controller_step params nominalWob nominalRpm i css v)).
Proof.
  intros Hv. unfold controller_step.
  destruct (v_state v).
  - destruct (Js.geb css (ssiEngage params)); apply nominal_within_limits.
  - destruct (Js.ltb css (ssiEngage params)); [exact Hv|].
    destruct (holdoffSamples params <=? i - detectionStartIdx v); exact Hv.
  - destruct (Js.ltb css (ssiRecovery params)); apply mitigating_within_limits.
  - destruct (Js.geb css (ssiEngage params)); [exact Hv|].
    destruct (12 <=? i - recoveryStartIdx v); [|exact Hv].
    cbn [with_setpoints wobSp].
    destruct (Js.geb _ (nominalWob * 0.98)%Q).
    + apply nominal_within_limits.
    + by apply ramp_within_limits.
Qed.

End Limits.

(** C10.  For gains [kpWob >= 0] and [kpRpm >= 0], floor fraction in
    [(0, 1]], [rpmMaxIncrease >= 0] and [nominalWob >= 0], [runController]
    returns one output per row, and every output, whatever its state, has
    its WOB set-point between [nominalWob * wobMinFraction] and [nominalWob]
    and its RPM set-point between [nominalRpm] and
    [nominalRpm + rpmMaxIncrease]. *)
Theorem setpoints_within_limits
    (params : ControllerParams) (nominalWob nominalRpm : Q)
    (rows : list ProcessedRow) :
  (0 <= kpWob params)%Q ->
  (0 < wobMinFraction params)%Q ->
  (wobMinFraction params <= 1)%Q ->
  (0 <= kpRpm params)%Q ->
  (0 <= rpmMaxIncrease params)%Q ->
  (0 <= nominalWob)%Q ->
  length (runController params nominalWob nominalRpm rows) = length rows /\
  Forall
    (fun o =>
       (nominalWob * wobMinFraction params <= wob_setpoint o)%Q /\
       (wob_setpoint o <= nominalWob)%Q /\
       (nominalRpm <= rpm_setpoint o)%Q /\
       (rpm_setpoint o <= nominalRpm + rpmMaxIncrease params)%Q)
    (runController params nominalWob nominalRpm rows).
Proof.
  intros HkW _ Hfl HkR Hmax HnW. split.
  - apply controller_loop_length.
  - unfold runController. rewrite controller_loop_trace.
    apply List.Forall_map.
    apply (trace_invariant params nominalWob nominalRpm
             (fun v => within_limits params nominalWob nominalRpm
                         (wobSp v) (rpmSp v))).
    + intros i css v Hv. by apply step_within_limits.
    + by apply nominal_within_limits.
Qed.

Lemma setpoints_within_limits_witness :
  (0 <= kpWob quick_controller)%Q /\
  (0 < wobMinFraction quick_controller)%Q /\
  (wobMinFraction quick_controller <= 1)%Q /\
  (0 <= kpRpm quick_controller)%Q /\
  (0 <= rpmMaxIncrease quick_controller)%Q /\
  (0 <= 100)%Q /\
  length (runController quick_controller 100 120 mitigation_run)
  = length mitigation_run.
Proof.
  assert (H1 : (0 <= kpWob quick_controller)%Q) by (vm_compute; discriminate).
  assert (H2 : (0 < wobMinFraction quick_controller)%Q) by reflexivity.
  assert (H3 : (wobMinFraction quick_controller <= 1)%Q)
    by (vm_compute; discriminate).
  assert (H4 : (0 <= kpRpm quick_controller)%Q) by (vm_compute; discriminate).
  assert (H5 : (0 <= rpmMaxIncrease quick_controller)%Q)
    by (vm_compute; discriminate).
  assert (H6 : (0 <= 100)%Q) by (vm_compute; discriminate).
  repeat (split; [assumption|]).
  exact (proj1 (setpoints_within_limits quick_controller 100 120 mitigation_run
                  H1 H2 H3 H4 H5 H6)).
Defined.

(** ** Display smoothing and seeking *)



Example tick_updates_filter :
  (smoothedCssRef (tick holdoff_run 1 116 paused_at_start) == 0.12)%Q /\
  cursorIdx (tick holdoff_run 1 116 paused_at_start) = 1.
Proof. split; [vm_compute|]; reflexivity. Qed.

(** C9.  A seek to index [k] sets the cursor to [k] and hard-resets the
    filter memory and the displayed severity to the raw severity at [k];
    the displayed payload (cursor index, row, controller output, severity)
    then depends on [k] and the arrays only: it is the same from any two
    earlier playback states, also after any frames played between two seeks
    to [k], and seeking twice in a row changes nothing. *)
Theorem seek_is_idempotent
    (processed : list ProcessedRow) (ctrlOutputs : list ControllerOutput)
    (k : Z) :
  (forall pb : Playback,
     cursorIdx (moveCursor processed k pb) = k /\
     cursorIdxRef (moveCursor processed k pb) = k /\
     smoothedCssRef (moveCursor processed k pb) = css_at processed k /\
     displayCss (moveCursor processed k pb) = css_at processed k) /\
  (forall pb1 pb2 : Playback,
     display_of processed ctrlOutputs (moveCursor processed k pb1)
     = display_of processed ctrlOutputs (moveCursor processed k pb2) /\
     smoothedCssRef (moveCursor processed k pb1)
     = smoothedCssRef (moveCursor processed k pb2)) /\
  (forall (pb : Playback) (frames : list (Z * Q)),
     display_of processed ctrlOutputs
       (moveCursor processed k (ticks processed frames (moveCursor processed k pb)))
     = display_of processed ctrlOutputs (moveCursor processed k pb)) /\
  (forall pb : Playback,
     moveCursor processed k (moveCursor processed k pb)
     = moveCursor processed k pb).
Proof.
  split; [|split; [|split]].
  - intros pb. by cbn.
  - intros pb1 pb2. by cbn.
  - intros pb frames. reflexivity.
  - intros pb. reflexivity.
Qed.

Example seek_after_playing :
  (smoothedCssRef
     (ticks holdoff_run [(1%Z, 116%Q); (1%Z, 200%Q)]
        (moveCursor holdoff_run 0 paused_at_start)) == 0.228)%Q /\
  (smoothedCssRef
     (moveCursor holdoff_run 0
        (ticks holdoff_run [(1%Z, 116%Q); (1%Z, 200%Q)]
           (moveCursor holdoff_run 0 paused_at_start))) == 0.1)%Q.
Proof. split; vm_compute; reflexivity. Qed.

(** ** Severity labels *)

Lemma cssToSeverity_rank (css : Q) :
  (label_rank (cssToSeverity css) = 3 <-> (0.75 <= css)%Q) /\
  (label_rank (cssToSeverity css) = 2 <-> (0.50 <= css)%Q /\ (css < 0.75)%Q) /\
  (label_rank (cssToSeverity css) = 1 <-> (0.25 <= css)%Q /\ (css < 0.50)%Q) /\
  (label_rank (cssToSeverity css) = 0 <-> (css < 0.25)%Q).
Proof.
  unfold cssToSeverity.
  destruct (Js.geb css 0.75) eqn:E1;
    [apply geb_true in E1 | apply geb_false in E1];
  (destruct (Js.geb css 0.50) eqn:E2;
    [apply geb_true in E2 | apply geb_false in E2]);
  (destruct (Js.geb css 0.25) eqn:E3;
    [apply geb_true in E3 | apply geb_false in E3]);
  simpl; repeat split; intros; try lia; try lra.
Qed.

(** [cssToLevel] and [SEVERITY_COLORS] of utils.ts are second copies of
    [cssToSeverity] and [severityColor] of clientDetection.ts: they agree on
    every severity and every label, distinct labels have distinct colours,
    and a larger severity never gets a lower label. *)
Theorem severity_labels_consistent :
  (forall css : Q, cssToLevel css = cssToSeverity css) /\
  (forall s : SeverityLabel, SEVERITY_COLORS s = severityColor s) /\
  (forall s t : SeverityLabel, severityColor s = severityColor t -> s = t) /\
  (forall a b : Q, (a <= b)%Q ->
     label_rank (cssToSeverity a) <= label_rank (cssToSeverity b)).
Proof.
  split; [reflexivity|]. split; [by intros []|]. split.
  - intros [] []; simpl; intros H; try reflexivity; discriminate.
  - intros a b Hab.
    destruct (cssToSeverity_rank a) as (A3 & A2 & A1 & A0).
    destruct (cssToSeverity_rank b) as (B3 & B2 & B1 & B0).
    destruct (cssToSeverity a), (cssToSeverity b); simpl in *; try lia;
      exfalso;
      repeat match goal with
        | H : ?n = ?n <-> _ |- _ => pose proof (proj1 H eq_refl); clear H
        | H : _ <-> _ |- _ => clear H
        end;
      lra.
Qed.

Lemma severity_labels_consistent_witness :
  (0.3 <= 0.8)%Q /\
  label_rank (cssToSeverity 0.3) <= label_rank (cssToSeverity 0.8).
Proof.
  assert (H : (0.3 <= 0.8)%Q) by (vm_compute; discriminate).
  split; [exact H|].
  exact (proj2 (proj2 (proj2 severity_labels_consistent)) 0.3%Q 0.8%Q H).
Defined.

(** The gauge clamps its value into [0,1] before drawing; clamping is
    idempotent, keeps the arc angle within [150, 390] degrees, and never
    changes the severity label, so the gauge's label always equals the one
    the engine computes from the unclamped value. *)
Theorem gauge_clamp_keeps_label (value : Q) :
  (0 <= gauge_sv value <= 1)%Q /\
  (gauge_sv (gauge_sv value) == gauge_sv value)%Q /\
  (150 <= gauge_fillAngle value <= 390)%Q /\
  cssToSeverity (gauge_sv value) = cssToSeverity value.
Proof.
  assert (Hrange : (0 <= gauge_sv value <= 1)%Q).
  { unfold gauge_sv. split; [apply max_lower_l|].
    apply max_upper; [lra | apply min_upper_l]. }
  assert (Hcases : (value <= 0 /\ gauge_sv value == 0)%Q
                   \/ (0 <= value <= 1 /\ gauge_sv value == value)%Q
                   \/ (1 <= value /\ gauge_sv value == 1)%Q).
  { unfold gauge_sv, Js.max, Js.min.
    destruct (Q.min_spec 1 value) as [[H1 E1]|[H1 E1]];
      destruct (Q.max_spec 0 (Qmin 1 value)) as [[H2 E2]|[H2 E2]];
      rewrite E2; rewrite ?E1 in *.
    - right. right. split; lra.
    - lra.
    - right. left. split; lra.
    - left. split; lra. }
  split; [exact Hrange|]. split; [|split].
  - unfold gauge_sv at 1. unfold Js.max, Js.min.
    rewrite Q.min_r by apply Hrange. apply Q.max_r, Hrange.
  - unfold gauge_fillAngle. lra.
  - destruct (cssToSeverity_rank (gauge_sv value)) as (A3 & A2 & A1 & A0).
    destruct (cssToSeverity_rank value) as (B3 & B2 & B1 & B0).
    assert (Hrank : label_rank (cssToSeverity (gauge_sv value))
                    = label_rank (cssToSeverity value)).
    { destruct (cssToSeverity value); simpl in *.
      - apply A0. pose proof (proj1 B0 eq_refl).
        destruct Hcases as [[? ?]|[[? ?]|[? ?]]]; lra.
      - apply A1. pose proof (proj1 B1 eq_refl).
        destruct Hcases as [[? ?]|[[? ?]|[? ?]]]; lra.
      - apply A2. pose proof (proj1 B2 eq_refl).
        destruct Hcases as [[? ?]|[[? ?]|[? ?]]]; lra.
      - apply A3. pose proof (proj1 B3 eq_refl).
        destruct Hcases as [[? ?]|[[? ?]|[? ?]]]; lra. }
    destruct (cssToSeverity (gauge_sv value)), (cssToSeverity value);
      simpl in Hrank; try reflexivity; lia.
Qed.

(** ** More on [recompute] *)

Lemma event_loop_telemetry (sustained : list bool) (processed : list ProcessedRow) :
  forall (i eventId : Z) (inEvent : bool),
    map telemetry (event_loop sustained i eventId inEvent processed)
    = map telemetry processed.
Proof.
  induction processed as [|r rest IH]; intros i eventId inEvent; simpl;
    [reflexivity|].
  destruct (event_step _ _ _). simpl. by rewrite IH.
Qed.

Lemma map_lookup {A B : Type} (f : A -> B) (l : list A) (i : nat) (x : A) :
  l !! i = Some x -> map f l !! i = Some (f x).
Proof.
  intros H. change (map f l) with (f <$> l).
  by rewrite list_lookup_fmap, H.
Qed.

Lemma recompute_pass (rows : list TelemetryRow) (params : DetectionParams) :
  length (recompute rows params) = length rows /\
  map telemetry (recompute rows params) = rows /\
  map computed_css (recompute rows params) = pass_css rows params /\
  map computed_flag (recompute rows params) = pass_flags rows params /\
  map computed_event_id (recompute rows params)
  = ids_from (pass_flags rows params) 0 false.
Proof.
  destruct (recompute_fields rows params) as (Hl & Hc & Hf & Hi).
  split; [exact Hl|]. split; [|by repeat split].
  unfold recompute. rewrite event_loop_telemetry, map_map. simpl.
  apply map_id.
Qed.

Lemma pass_lengths (rows : list TelemetryRow) (params : DetectionParams) :
  length (pass_css rows params) = length rows /\
  length (pass_flags rows params) = length rows.
Proof.
  unfold pass_flags, pass_css.
  by rewrite sustained_flags_length, !length_map.
Qed.

(** Row [i] of the result, field by field. *)
Lemma recompute_lookup (rows : list TelemetryRow) (params : DetectionParams)
    (i : nat) (r : ProcessedRow) :
  recompute rows params !! i = Some r ->
  rows !! i = Some (telemetry r) /\
  pass_css rows params !! i = Some (computed_css r) /\
  pass_flags rows params !! i = Some (computed_flag r) /\
  ids_from (pass_flags rows params) 0 false !! i = Some (computed_event_id r).
Proof.
  intros H. destruct (recompute_pass rows params) as (_ & Ht & Hc & Hf & Hi).
  rewrite <- Ht at 1. rewrite <- Hc, <- Hf at 1. rewrite <- Hi.
  repeat split; by apply map_lookup.
Qed.

Lemma pass_flags_lookup (rows : list TelemetryRow) (params : DetectionParams)
    (k : nat) :
  (k < length rows)%nat ->
  pass_flags rows params !! k =
  Some ((minDurationSamples params - 1 <=? Z.of_nat k)
        && window_all
             (map (fun s => Js.geb s (cssThreshold params)) (pass_css rows params))
             (Z.of_nat k - minDurationSamples params + 1)
             (Z.to_nat (minDurationSamples params))).
Proof.
  intros Hk. unfold pass_flags. apply sustained_flags_lookup.
  rewrite length_map. destruct (pass_lengths rows params) as [-> _]. exact Hk.
Qed.

(** [recompute] returns the input rows unchanged and in order, each with
    its three computed fields; in particular an empty input gives an empty
    output. *)
Theorem recompute_keeps_rows
    (rows : list TelemetryRow) (params : DetectionParams) :
  map telemetry (recompute rows params) = rows /\
  (forall (i : nat) (r : TelemetryRow),
     rows !! i = Some r ->
     exists out, recompute rows params !! i = Some out /\ telemetry out = r) /\
  (rows = [] -> recompute rows params = []).
Proof.
  destruct (recompute_pass rows params) as (Hl & Ht & _).
  split; [exact Ht|]. split.
  - intros i r Hr.
    destruct (recompute rows params !! i) as [out|] eqn:E.
    + exists out. split; [reflexivity|].
      apply (map_lookup telemetry) in E. rewrite Ht in E. congruence.
    + apply lookup_ge_None in E. apply lookup_lt_Some in Hr. lia.
  - intros ->. reflexivity.
Qed.

Lemma recompute_keeps_rows_witness :
  [telemetry_row (Some 0.5%Q) None None] !! 0%nat
  = Some (telemetry_row (Some 0.5%Q) None None) /\
  exists out,
    recompute [telemetry_row (Some 0.5%Q) None None] DEFAULT_PARAMS !! 0%nat
    = Some out
    /\ telemetry out = telemetry_row (Some 0.5%Q) None None.
Proof.
  split; [reflexivity|].
  apply (recompute_keeps_rows [telemetry_row (Some 0.5%Q) None None]
           DEFAULT_PARAMS).
  reflexivity.
Defined.



Lemma window_all_true_at (rawFlag : list bool) (w : Z) (k : nat) :
  (w - 1 <=? Z.of_nat k) && window_all rawFlag (Z.of_nat k - w + 1) (Z.to_nat w)
  = true ->
  forall j : Z, Z.of_nat k - w + 1 <= j <= Z.of_nat k ->
    Js.index rawFlag j = Some true.
Proof.
  intros H j Hj. apply andb_true_iff in H as [_ H].
  rewrite window_all_spec in H. apply H. lia.
Qed.

(** Tightening the detector never adds a flag: with the same weights, a
    higher threshold or a longer minimum duration flags a subset of the
    rows flagged before. *)
Theorem stricter_detection_flags_fewer
    (rows : list TelemetryRow) (params : DetectionParams)
    (threshold' : Q) (window' : Z) (i : nat) (r r' : ProcessedRow) :
  (cssThreshold params <= threshold')%Q ->
  minDurationSamples params <= window' ->
  recompute rows params !! i = Some r ->
  recompute rows
    (set_cssThreshold threshold' (set_minDurationSamples window' params)) !! i
  = Some r' ->
  computed_flag r' = true ->
  computed_flag r = true.
Proof.
  intros Hthr Hwin Hr Hr' Hflag.
  destruct (recompute_lookup _ _ _ _ Hr) as (Hrow & _ & Hf & _).
  destruct (recompute_lookup _ _ _ _ Hr') as (_ & _ & Hf' & _).
  assert (Hi : (i < length rows)%nat) by (by apply lookup_lt_Some in Hrow).
  rewrite pass_flags_lookup in Hf, Hf' by exact Hi.
  injection Hf as Hf. injection Hf' as Hf'. rewrite Hflag in Hf'.
  rewrite <- Hf.
  change (pass_css rows (set_cssThreshold threshold'
            (set_minDurationSamples window' params)))
    with (pass_css rows params) in Hf'.
  cbn [set_cssThreshold set_minDurationSamples cssThreshold minDurationSamples]
    in Hf'.
  pose proof (window_all_true_at _ _ _ Hf') as Hwindow.
  apply andb_true_iff in Hf' as [Hge _]. apply Z.leb_le in Hge.
  apply andb_true_iff. split; [apply Z.leb_le; lia|].
  apply window_all_spec. intros j Hj.
  specialize (Hwindow j ltac:(lia)).
  destruct (Z.ltb_spec j 0) as [Hneg|Hpos].
  { rewrite index_negative in Hwindow by exact Hneg. discriminate. }
  assert (Ej : j = Z.of_nat (Z.to_nat j)) by lia.
  rewrite Ej in Hwindow |- *. rewrite index_nat in Hwindow |- *.
  change (map ?f ?l) with (f <$> l) in Hwindow |- *.
  rewrite list_lookup_fmap in Hwindow |- *.
  destruct (pass_css rows params !! Z.to_nat j) as [c|];
    simpl in Hwindow; [|discriminate].
  simpl. injection Hwindow as Hc. f_equal.
  apply geb_true. apply geb_true in Hc. lra.
Qed.

Lemma stricter_detection_flags_fewer_witness :
  exists r r' : ProcessedRow,
    (cssThreshold zero_window <= 0.4)%Q /\
    minDurationSamples zero_window <= 1 /\
    recompute [telemetry_row (Some 0.5%Q) None None] zero_window !! 0%nat
    = Some r /\
    recompute [telemetry_row (Some 0.5%Q) None None]
      (set_cssThreshold 0.4 (set_minDurationSamples 1 zero_window)) !! 0%nat
    = Some r' /\
    computed_flag r' = true /\
    computed_flag r = true.
Proof.
  eexists. eexists.
  assert (H1 : (cssThreshold zero_window <= 0.4)%Q) by (vm_compute; discriminate).
  assert (H2 : minDurationSamples zero_window <= 1) by (simpl; lia).
  split; [exact H1|]. split; [exact H2|].
  split; [reflexivity|]. split; [reflexivity|]. split; [reflexivity|].
  eapply (stricter_detection_flags_fewer
            [telemetry_row (Some 0.5%Q) None None] zero_window 0.4 1 0
            _ _ H1 H2); reflexivity.
Defined.

(** With a window of at least one sample, a flagged row has a severity at
    or above the threshold; so for a threshold of 0.25 (the default) or more
    no flagged row is labelled STABLE. *)
Theorem flagged_rows_reach_threshold
    (rows : list TelemetryRow) (params : DetectionParams)
    (i : nat) (r : ProcessedRow) :
  1 <= minDurationSamples params ->
  recompute rows params !! i = Some r ->
  computed_flag r = true ->
  (cssThreshold params <= computed_css r)%Q /\
  ((0.25 <= cssThreshold params)%Q -> cssToSeverity (computed_css r) <> STABLE).
Proof.
  intros Hw Hr Hflag.
  destruct (recompute_lookup _ _ _ _ Hr) as (Hrow & Hc & Hf & _).
  assert (Hi : (i < length rows)%nat) by (by apply lookup_lt_Some in Hrow).
  rewrite pass_flags_lookup in Hf by exact Hi.
  injection Hf as Hf. rewrite Hflag in Hf.
  pose proof (window_all_true_at _ _ _ Hf (Z.of_nat i) ltac:(lia)) as Hraw.
  rewrite index_nat in Hraw.
  change (map ?f ?l) with (f <$> l) in Hraw.
  rewrite list_lookup_fmap, Hc in Hraw. simpl in Hraw.
  injection Hraw as Hraw. apply geb_true in Hraw.
  split; [exact Hraw|].
  intros Hthr Hstable.
  destruct (cssToSeverity_rank (computed_css r)) as (_ & _ & _ & H0).
  rewrite Hstable in H0. pose proof (proj1 H0 eq_refl). lra.
Qed.

Lemma flagged_rows_reach_threshold_witness :
  exists r : ProcessedRow,
    1 <= minDurationSamples mwd_only /\
    recompute (map (fun m => telemetry_row (Some m) None None)
                 [0.5; 0.5; 0.5; 0.5]%Q) mwd_only !! 3%nat = Some r /\
    computed_flag r = true /\
    (cssThreshold mwd_only <= computed_css r)%Q.
Proof.
  eexists.
  assert (H1 : 1 <= minDurationSamples mwd_only) by (simpl; lia).
  split; [exact H1|]. split; [reflexivity|]. split; [reflexivity|].
  eapply (flagged_rows_reach_threshold
            (map (fun m => telemetry_row (Some m) None None)
               [0.5; 0.5; 0.5; 0.5]%Q) mwd_only 3 _ H1); reflexivity.
Defined.

Lemma geb_compat (a a' t : Q) : (a == a')%Q -> Js.geb a t = Js.geb a' t.
Proof.
  intros H. destruct (Js.geb a' t) eqn:E.
  - apply geb_true. apply geb_true in E. lra.
  - apply geb_false. apply geb_false in E. lra.
Qed.

Lemma css_of_compat (w1 w2 w3 w1' w2' w3' : Q) (r : TelemetryRow) :
  (w1 == w1')%Q -> (w2 == w2')%Q -> (w3 == w3')%Q ->
  (css_of w1 w2 w3 r == css_of w1' w2' w3' r)%Q.
Proof.
  intros H1 H2 H3. unfold css_of, Js.min, Js.max.
  rewrite H1, H2, H3. reflexivity.
Qed.

Lemma scaled_share (c a total : Q) :
  ~ (c == 0)%Q -> ~ (total == 0)%Q ->
  (c * a / (c * total) == a / total)%Q.
Proof. intros Hc Ht. field. split; assumption. Qed.



(** ** Earlier results do not depend on later samples *)

Lemma processed_rows_eq (l1 l2 : list ProcessedRow) :
  map telemetry l1 = map telemetry l2 ->
  map computed_css l1 = map computed_css l2 ->
  map computed_flag l1 = map computed_flag l2 ->
  map computed_event_id l1 = map computed_event_id l2 ->
  l1 = l2.
Proof.
  revert l2. induction l1 as [|[t c f e] l1 IH]; intros [|[t' c' f' e'] l2];
    simpl; intros Ht Hc Hf He; try discriminate; [reflexivity|].
  injection Ht as -> Ht. injection Hc as -> Hc.
  injection Hf as -> Hf. injection He as -> He.
  f_equal. by apply IH.
Qed.

Lemma map_take {A B : Type} (f : A -> B) (n : nat) (l : list A) :
  map f (take n l) = take n (map f l).
Proof.
  revert n. induction l as [|x l IH]; intros [|n]; simpl; try reflexivity.
  by rewrite IH.
Qed.

Lemma window_all_app (rawFlag more : list bool) (steps : nat) :
  forall j : Z,
    j + Z.of_nat steps <= Z.of_nat (length rawFlag) ->
    window_all (rawFlag ++ more) j steps = window_all rawFlag j steps.
Proof.
  induction steps as [|n IH]; intros j Hj; [reflexivity|].
  cbn [window_all]. rewrite IH by lia.
  replace (Js.index (rawFlag ++ more) j) with (Js.index rawFlag j);
    [reflexivity|].
  unfold Js.index. destruct (Z.ltb_spec j 0); [reflexivity|].
  symmetry. apply lookup_app_l. lia.
Qed.

Lemma sustained_flags_app (rawFlag more : list bool) (w : Z) :
  take (length rawFlag) (sustained_flags (rawFlag ++ more) w)
  = sustained_flags rawFlag w.
Proof.
  apply list_eq. intros k. rewrite lookup_take.
  destruct (decide (k < length rawFlag)%nat) as [Hk|Hk].
  - rewrite !sustained_flags_lookup by (rewrite ?length_app; lia).
    f_equal. destruct (Z.leb_spec (w - 1) (Z.of_nat k)); [|reflexivity].
    simpl. destruct (Z_le_gt_dec 0 w) as [Hw|Hw].
    + apply window_all_app. lia.
    + by replace (Z.to_nat w) with 0%nat by lia.
  - symmetry. apply lookup_ge_None. rewrite sustained_flags_length. lia.
Qed.

Lemma ids_from_app (s more : list bool) :
  forall (eventId : Z) (inEvent : bool),
    take (length s) (ids_from (s ++ more) eventId inEvent)
    = ids_from s eventId inEvent.
Proof.
  induction s as [|b rest IH]; intros eventId inEvent; [by rewrite take_0|].
  simpl. destruct (event_step b eventId inEvent). simpl. by rewrite IH.
Qed.

(** Detection is causal: appending samples to a recording never changes the
    severity, flag or event id of an earlier row. *)
Theorem recompute_prefix
    (rows more : list TelemetryRow) (params : DetectionParams) :
  take (length rows) (recompute (rows ++ more) params) = recompute rows params.
Proof.
  destruct (recompute_pass rows params) as (_ & Ht & Hc & Hf & Hi).
  destruct (recompute_pass (rows ++ more) params) as (_ & Ht' & Hc' & Hf' & Hi').
  assert (Hcss : take (length rows) (pass_css (rows ++ more) params)
                 = pass_css rows params).
  { unfold pass_css. rewrite map_app.
    match goal with
    | |- take _ (map ?f rows ++ _) = _ =>
        rewrite <- (length_map f rows); apply take_app_length
    end. }
  assert (Hflags : take (length rows) (pass_flags (rows ++ more) params)
                   = pass_flags rows params).
  { unfold pass_flags at 1. unfold pass_css. rewrite !map_app.
    fold (pass_css rows params).
    replace (length rows) with
      (length (map (fun s => Js.geb s (cssThreshold params))
                 (pass_css rows params)))
      by (rewrite length_map; apply pass_lengths).
    apply sustained_flags_app. }
  apply processed_rows_eq; rewrite map_take.
  - by rewrite Ht', Ht, take_app_length.
  - by rewrite Hc', Hc.
  - by rewrite Hf', Hf.
  - rewrite Hi', Hi.
    rewrite <- (take_drop (length rows) (pass_flags (rows ++ more) params)).
    rewrite Hflags.
    replace (length rows) with (length (pass_flags rows params))
      by apply pass_lengths.
    apply ids_from_app.
Qed.

Lemma controller_loop_app (params : ControllerParams)
    (nominalWob nominalRpm : Q) (rows more : list ProcessedRow) :
  forall (i : Z) (v : Vars),
    take (length rows)
      (controller_loop params nominalWob nominalRpm i v (rows ++ more))
    = controller_loop params nominalWob nominalRpm i v rows.
Proof.
  induction rows as [|r rest IH]; intros i v; [by rewrite take_0|].
  simpl. by rewrite IH.
Qed.

(** The controller is causal as well: the outputs for a recording are a
    prefix of the outputs for any longer recording, also through the whole
    pipeline of detection followed by control. *)
Theorem runController_prefix
    (params : ControllerParams) (nominalWob nominalRpm : Q) :
  (forall rows more : list ProcessedRow,
     take (length rows) (runController params nominalWob nominalRpm (rows ++ more))
     = runController params nominalWob nominalRpm rows) /\
  (forall (rows more : list TelemetryRow) (dparams : DetectionParams),
     take (length rows)
       (runController params nominalWob nominalRpm
          (recompute (rows ++ more) dparams))
     = runController params nominalWob nominalRpm (recompute rows dparams)).
Proof.
  split.
  - intros rows more. apply controller_loop_app.
  - intros rows more dparams.
    rewrite <- (take_drop (length rows) (recompute (rows ++ more) dparams)).
    rewrite recompute_prefix.
    replace (length rows) with (length (recompute rows dparams))
      by apply recompute_pass.
    apply controller_loop_app.
Qed.

(** ** Event counter and scrubber markers *)

Lemma event_markers_unfold (processed : list ProcessedRow) :
  event_markers processed = filter_indexed (starts_event processed) 0 processed.
Proof. reflexivity. Qed.

Lemma consecutive_ids_cons (first count : Z) :
  0 <= count ->
  consecutive_ids first (1 + count)
  = (first + 1) :: consecutive_ids (first + 1) count.
Proof.
  intros H. unfold consecutive_ids.
  replace (Z.to_nat (1 + count)) with (S (Z.to_nat count)) by lia.
  cbn [seq map]. f_equal; [lia|].
  rewrite <- seq_shift, map_map. apply map_ext. intros k. lia.
Qed.

(** The marker filter over the rows from index [i] on, whose flags and ids
    are those of step 3 started with counter [e] and previous flag [prev]. *)
Lemma marker_ids_from (processed : list ProcessedRow) (suffix : list ProcessedRow) :
  forall (i : nat) (prev : bool) (e : Z),
    drop i processed = suffix ->
    (i = 0%nat /\ prev = false
     \/ exists (i' : nat) (p : ProcessedRow),
          i = S i' /\ processed !! i' = Some p /\ prev = computed_flag p) ->
    map computed_event_id suffix
    = ids_from (map computed_flag suffix) e prev ->
    map computed_event_id
      (filter_indexed (starts_event processed) (Z.of_nat i) suffix)
    = consecutive_ids e (rising_edges prev (map computed_flag suffix)).
Proof.
  induction suffix as [|r rest IH]; intros i prev e Hdrop Hprev Hids;
    [reflexivity|].
  assert (Hr : processed !! i = Some r).
  { rewrite <- (Nat.add_0_r i), <- lookup_drop, Hdrop. reflexivity. }
  assert (Hrest : drop (S i) processed = rest).
  { rewrite (drop_S _ _ _ Hr) in Hdrop. by injection Hdrop. }
  assert (Hkeep : starts_event processed r (Z.of_nat i)
                  = computed_flag r && negb prev).
  { unfold starts_event. f_equal.
    destruct Hprev as [[-> ->]|(i' & p & -> & Hp & ->)]; [reflexivity|].
    destruct (Z.eqb_spec (Z.of_nat (S i')) 0); [lia|].
    replace (Z.of_nat (S i') - 1) with (Z.of_nat i') by lia.
    rewrite index_nat, Hp. simpl. by destruct (computed_flag p). }
  cbn [filter_indexed map rising_edges ids_from] in *.
  rewrite event_step_eq in Hids. rewrite Hkeep.
  injection Hids as Hid Hids.
  replace (Z.of_nat i + 1) with (Z.of_nat (S i)) by lia.
  pose proof (rising_edges_nonneg (map computed_flag rest) (computed_flag r))
    as Hnonneg.
  assert (Hnext : exists (i' : nat) (p : ProcessedRow),
            S i = S i' /\ processed !! i' = Some p
            /\ computed_flag r = computed_flag p)
    by (by exists i, r).
  destruct (computed_flag r && negb prev) eqn:E.
  - rewrite consecutive_ids_cons by exact Hnonneg.
    cbn [map]. f_equal.
    + apply andb_true_iff in E as [E _]. rewrite E in Hid. exact Hid.
    + apply (IH (S i) _ _ Hrest (or_intror Hnext)). exact Hids.
  - replace (e + 0) with e in Hids by lia.
    rewrite Z.add_0_l.
    apply (IH (S i) _ _ Hrest (or_intror Hnext)). exact Hids.
Qed.

(** The scrubber draws one marker per event: the marked rows carry the
    event ids 1, 2, ..., m in this order, no row has an id outside 0..m,
    and the event counter, which reads the id of the last row, shows m only
    when the recording ends inside an event and 0 otherwise. *)
Theorem event_markers_and_counter
    (rows : list TelemetryRow) (params : DetectionParams) :
  let out := recompute rows params in
  let m := Z.of_nat (length (event_markers out)) in
  map computed_event_id (event_markers out) = consecutive_ids 0 m /\
  m = rising_edges false (map computed_flag out) /\
  Forall (fun r => 0 <= computed_event_id r <= m) out /\
  (forall last : ProcessedRow,
     out !! (length out - 1)%nat = Some last ->
     eventCount out = if computed_flag last then m else 0) /\
  (rows = [] -> eventCount out = 0).
Proof.
  intros out m.
  destruct (recompute_pass rows params) as (Hl & _ & _ & Hf & Hi).
  fold out in Hl, Hf, Hi.
  assert (Hmarkers :
    map computed_event_id (event_markers out)
    = consecutive_ids 0 (rising_edges false (map computed_flag out))).
  { rewrite event_markers_unfold.
    apply (marker_ids_from out out 0 false 0).
    - apply drop_0.
    - by left.
    - by rewrite Hi, Hf. }
  assert (Hm : m = rising_edges false (map computed_flag out)).
  { unfold m. rewrite <- (length_map computed_event_id), Hmarkers.
    unfold consecutive_ids. rewrite length_map, length_seq.
    pose proof (rising_edges_nonneg (map computed_flag out) false). lia. }
  assert (Hid : forall (i : nat) (r : ProcessedRow),
            out !! i = Some r ->
            computed_event_id r =
            if computed_flag r
            then rising_edges false (take (S i) (map computed_flag out))
            else 0).
  { intros i r Hr.
    pose proof (map_lookup computed_event_id _ _ _ Hr) as He.
    pose proof (map_lookup computed_flag _ _ _ Hr) as Hfl.
    rewrite Hi, <- Hf in He.
    rewrite (ids_from_lookup _ 0 false i _ Hfl) in He.
    injection He as <-. by destruct (computed_flag r). }
  split; [by rewrite Hm|]. split; [exact Hm|]. split; [|split].
  - apply Forall_lookup. intros i r Hr. rewrite (Hid i r Hr), Hm.
    pose proof (rising_edges_nonneg (map computed_flag out) false) as Hall.
    destruct (computed_flag r); [|lia].
    assert (Hsplit :
      rising_edges false (map computed_flag out)
      = rising_edges false (take (S i) (map computed_flag out))
        + rising_edges (List.last (take (S i) (map computed_flag out)) false)
            (drop (S i) (map computed_flag out)))
      by (by rewrite <- rising_edges_app, take_drop).
    pose proof (rising_edges_nonneg (take (S i) (map computed_flag out)) false).
    pose proof (rising_edges_nonneg (drop (S i) (map computed_flag out))
                  (List.last (take (S i) (map computed_flag out)) false)).
    lia.
  - intros last Hlast.
    assert (Hpos : (0 < length out)%nat)
      by (apply lookup_lt_Some in Hlast; lia).
    unfold eventCount.
    destruct (Z.ltb_spec 0 (Z.of_nat (length out))); [|lia].
    replace (Z.of_nat (length out) - 1) with (Z.of_nat (length out - 1)) by lia.
    rewrite index_nat, Hlast. simpl.
    rewrite (Hid _ _ Hlast), Hm.
    destruct (computed_flag last); [|reflexivity].
    rewrite take_ge; [reflexivity|]. rewrite length_map. lia.
  - intros ->. reflexivity.
Qed.

Example counter_misses_finished_event :
  map computed_flag
    (recompute (map (fun m => telemetry_row (Some m) None None)
                  [0.5; 0.5; 0.5; 0.5; 0.1]%Q) mwd_only)
  = [false; false; false; true; false] /\
  length (event_markers
            (recompute (map (fun m => telemetry_row (Some m) None None)
                          [0.5; 0.5; 0.5; 0.5; 0.1]%Q) mwd_only)) = 1%nat /\
  eventCount
    (recompute (map (fun m => telemetry_row (Some m) None None)
                  [0.5; 0.5; 0.5; 0.5; 0.1]%Q) mwd_only) = 0.
Proof. repeat split. Qed.

Lemma event_markers_and_counter_witness :
  ([] : list TelemetryRow) = [] /\
  eventCount (recompute [] DEFAULT_PARAMS) = 0.
Proof.
  split; [reflexivity|].
  apply (event_markers_and_counter [] DEFAULT_PARAMS). reflexivity.
Defined.

(** ** More on the controller *)

Section ControllerMore.

Variable params : ControllerParams.
Variables nominalWob nominalRpm : Q.

Lemma step_transition_allowed (i : Z) (css : Q) (v : Vars) :
  transition_allowed (v_state v)
    (v_state (controller_step params nominalWob nominalRpm i css v)) = true.
Proof.
  unfold controller_step. destruct (v_state v) eqn:E.
  - destruct (Js.geb css (ssiEngage params)); simpl; by rewrite ?E.
  - destruct (Js.ltb css (ssiEngage params)); [reflexivity|].
    destruct (holdoffSamples params <=? i - detectionStartIdx v); simpl;
      by rewrite ?E.
  - destruct (Js.ltb css (ssiRecovery params)); simpl; by rewrite ?E.
  - destruct (Js.geb css (ssiEngage params)); [reflexivity|].
    destruct (12 <=? i - recoveryStartIdx v); simpl; [|by rewrite E].
    destruct (Js.geb _ (nominalWob * 0.98)%Q); simpl; by rewrite ?E.
Qed.

Lemma trace_lookup_output (rows : list ProcessedRow) (k : nat) (v : Vars) :
  vars_trace params nominalWob nominalRpm 0
    (initial_vars nominalWob nominalRpm) rows !! k = Some v ->
  runController params nominalWob nominalRpm rows !! k = Some (output_of v).
Proof.
  intros H. unfold runController. rewrite controller_loop_trace.
  by apply map_lookup.
Qed.

Lemma trace_length (rows : list ProcessedRow) :
  forall (i : Z) (v : Vars),
    length (vars_trace params nominalWob nominalRpm i v rows) = length rows.
Proof.
  induction rows as [|r rest IH]; intros i v; simpl; [reflexivity|].
  by rewrite IH.
Qed.

(** Induction along the pass, with the sample index at hand. *)
Lemma trace_indexed_invariant (P : nat -> Vars -> Prop)
    (rows : list ProcessedRow) :
  (forall r : ProcessedRow,
     rows !! 0%nat = Some r ->
     P 0%nat (controller_step params nominalWob nominalRpm 0 (computed_css r)
                (initial_vars nominalWob nominalRpm))) ->
  (forall (k : nat) (v : Vars) (r : ProcessedRow),
     vars_trace params nominalWob nominalRpm 0
       (initial_vars nominalWob nominalRpm) rows !! k = Some v ->
     P k v ->
     rows !! S k = Some r ->
     P (S k) (controller_step params nominalWob nominalRpm (Z.of_nat (S k))
                (computed_css r) v)) ->
  forall (k : nat) (v : Vars),
    vars_trace params nominalWob nominalRpm 0
      (initial_vars nominalWob nominalRpm) rows !! k = Some v ->
    P k v.
Proof.
  intros Hbase Hstep. induction k as [|k IH]; intros v Hv.
  - destruct (trace_first _ _ _ _ _ _ _ Hv) as (r & Hr & ->). by apply Hbase.
  - destruct (trace_next _ _ _ _ _ _ _ _ Hv) as (v1 & r & Hv1 & Hr & ->).
    replace (0 + Z.of_nat (S k)) with (Z.of_nat (S k)) by lia.
    apply (Hstep k v1 r Hv1 (IH v1 Hv1) Hr).
Qed.

End ControllerMore.

(** Along the output array the state only moves along the edges of the
    state diagram: NORMAL to NORMAL or DETECTING; DETECTING to NORMAL,
    DETECTING or MITIGATING; MITIGATING to MITIGATING or RECOVERING;
    RECOVERING to RECOVERING, MITIGATING or NORMAL.  The first output is
    NORMAL or DETECTING.  In particular NORMAL never jumps to MITIGATING and
    RECOVERING never falls back to DETECTING. *)
Theorem controller_follows_state_diagram
    (params : ControllerParams) (nominalWob nominalRpm : Q)
    (rows : list ProcessedRow) :
  (forall o : ControllerOutput,
     runController params nominalWob nominalRpm rows !! 0%nat = Some o ->
     state o = NORMAL \/ state o = DETECTING) /\
  (forall (k : nat) (o o' : ControllerOutput),
     runController params nominalWob nominalRpm rows !! k = Some o ->
     runController params nominalWob nominalRpm rows !! S k = Some o' ->
     transition_allowed (state o) (state o') = true).
Proof.
  unfold runController. split.
  - intros o Ho.
    destruct (output_lookup _ _ _ _ _ _ _ _ Ho) as (v & Hv & ->).
    destruct (trace_first _ _ _ _ _ _ _ Hv) as (r & _ & ->).
    pose proof (step_transition_allowed params nominalWob nominalRpm 0
                  (computed_css r) (initial_vars nominalWob nominalRpm)) as H.
    cbn [initial_vars v_state output_of state] in *.
    destruct (v_state _); simpl in H; auto; discriminate.
  - intros k o o' Ho Ho'.
    destruct (output_lookup _ _ _ _ _ _ _ _ Ho) as (v1 & Hv1 & ->).
    destruct (output_lookup _ _ _ _ _ _ _ _ Ho') as (v2 & Hv2 & ->).
    destruct (trace_next _ _ _ _ _ _ _ _ Hv2) as (v1' & r & Hv1' & _ & ->).
    rewrite Hv1 in Hv1'. injection Hv1' as <-.
    apply step_transition_allowed.
Qed.

Lemma controller_follows_state_diagram_witness :
  exists o o' : ControllerOutput,
    runController quick_controller 100 120 mitigation_run !! 0%nat = Some o /\
    runController quick_controller 100 120 mitigation_run !! 1%nat = Some o' /\
    transition_allowed (state o) (state o') = true.
Proof.
  eexists. eexists. split; [reflexivity|]. split; [reflexivity|].
  refine (proj2 (controller_follows_state_diagram quick_controller 100 120
                   mitigation_run) 0%nat _ _ _ _); reflexivity.
Defined.

(** No actuation outside MITIGATING and RECOVERING: every output in state
    NORMAL or DETECTING carries exactly the nominal set-points. *)
Theorem nominal_outside_mitigation
    (params : ControllerParams) (nominalWob nominalRpm : Q)
    (rows : list ProcessedRow) :
  Forall
    (fun o =>
       state o = NORMAL \/ state o = DETECTING ->
       wob_setpoint o = nominalWob /\ rpm_setpoint o = nominalRpm)
    (runController params nominalWob nominalRpm rows).
Proof.
  unfold runController. rewrite controller_loop_trace.
  apply List.Forall_map.
  apply (trace_invariant params nominalWob nominalRpm
           (fun v => v_state v = NORMAL \/ v_state v = DETECTING ->
                     wobSp v = nominalWob /\ rpmSp v = nominalRpm)).
  - intros i css v Hv. unfold controller_step.
    destruct (v_state v) eqn:E;
      repeat match goal with
        | |- context [if ?c then _ else _] => destruct c
        end;
      vars_simpl; rewrite ?E; auto;
      intros [H|H]; discriminate.
  - simpl. auto.
Qed.

Lemma quiet_prefix (params : ControllerParams) (nominalWob nominalRpm : Q)
    (quiet rest : list ProcessedRow) :
  Forall (fun r => (computed_css r < ssiEngage params)%Q) quiet ->
  forall (i : Z) (v : Vars),
    v_state v = NORMAL ->
    exists v' : Vars,
      v_state v' = NORMAL /\
      controller_loop params nominalWob nominalRpm i v (quiet ++ rest)
      = map (fun _ => idle_output nominalWob nominalRpm) quiet
        ++ controller_loop params nominalWob nominalRpm
             (i + Z.of_nat (length quiet)) v' rest.
Proof.
  induction 1 as [|r quiet Hr _ IH]; intros i v Hv.
  - exists v. split; [exact Hv|]. simpl. f_equal. lia.
  - assert (Hstep : controller_step params nominalWob nominalRpm i
                      (computed_css r) v
                    = with_setpoints nominalWob nominalRpm v).
    { unfold controller_step. rewrite Hv.
      by rewrite (proj2 (geb_false _ _) Hr). }
    destruct (IH (i + 1) (with_setpoints nominalWob nominalRpm v) Hv)
      as (v' & Hv' & Hloop).
    exists v'. split; [exact Hv'|].
    cbn [app controller_loop map length]. rewrite Hstep, Hloop.
    unfold output_of, idle_output. simpl. rewrite Hv.
    do 3 f_equal. lia.
Qed.

(** While the severity stays below the engage threshold the controller
    idles (state NORMAL, nominal set-points); the first sample that reaches
    the threshold gives DETECTING, still with nominal set-points. *)
Theorem controller_idles_until_engage
    (params : ControllerParams) (nominalWob nominalRpm : Q)
    (quiet : list ProcessedRow) :
  Forall (fun r => (computed_css r < ssiEngage params)%Q) quiet ->
  runController params nominalWob nominalRpm quiet
  = map (fun _ => idle_output nominalWob nominalRpm) quiet /\
  (forall (r : ProcessedRow) (more : list ProcessedRow),
     (ssiEngage params <= computed_css r)%Q ->
     take (S (length quiet))
       (runController params nominalWob nominalRpm (quiet ++ r :: more))
     = map (fun _ => idle_output nominalWob nominalRpm) quiet
       ++ [ {| state := DETECTING;
               wob_setpoint := nominalWob;
               rpm_setpoint := nominalRpm |} ]).
Proof.
  intros Hquiet. unfold runController. split.
  - destruct (quiet_prefix params nominalWob nominalRpm quiet [] Hquiet 0
                (initial_vars nominalWob nominalRpm) eq_refl)
      as (v' & _ & Hloop).
    rewrite app_nil_r in Hloop. rewrite Hloop. simpl. apply app_nil_r.
  - intros r more Hr.
    destruct (quiet_prefix params nominalWob nominalRpm quiet (r :: more)
                Hquiet 0 (initial_vars nominalWob nominalRpm) eq_refl)
      as (v' & Hv' & Hloop).
    rewrite Hloop.
    replace (S (length quiet)) with
      (length (map (fun _ => idle_output nominalWob nominalRpm) quiet) + 1)%nat
      by (rewrite length_map; lia).
    rewrite take_app_add. f_equal.
    cbn [controller_loop take]. rewrite take_0. f_equal.
    unfold controller_step. rewrite Hv'.
    by rewrite (proj2 (geb_true _ _) Hr).
Qed.

Lemma controller_idles_until_engage_witness :
  Forall (fun r => (computed_css r < ssiEngage quick_controller)%Q)
    [sample_with_css 0.1; sample_with_css 0.2] /\
  runController quick_controller 100 120
    [sample_with_css 0.1; sample_with_css 0.2]
  = map (fun _ => idle_output 100 120)
      [sample_with_css 0.1; sample_with_css 0.2].
Proof.
  assert (H : Forall (fun r => (computed_css r < ssiEngage quick_controller)%Q)
                [sample_with_css 0.1; sample_with_css 0.2])
    by (repeat constructor).
  split; [exact H|].
  exact (proj1 (controller_idles_until_engage quick_controller 100 120
                  [sample_with_css 0.1; sample_with_css 0.2] H)).
Defined.

Lemma detecting_since_holds (params : ControllerParams)
    (nominalWob nominalRpm : Q) (rows : list ProcessedRow) (k : nat) (v : Vars) :
  vars_trace params nominalWob nominalRpm 0
    (initial_vars nominalWob nominalRpm) rows !! k = Some v ->
  detecting_since params rows k v.
Proof.
  revert k v. apply trace_indexed_invariant.
  - intros r Hr. unfold controller_step, detecting_since.
    cbn [initial_vars v_state].
    destruct (Js.geb (computed_css r) (ssiEngage params)) eqn:G; vars_simpl.
    + split; [|intros [H|H]; discriminate].
      intros _. split; [lia|]. intros j Hj.
      replace j with 0%nat by lia. exists r. split; [exact Hr|].
      by apply geb_true.
    + split; [discriminate | intros [H|H]; discriminate].
  - intros k v r Hv [Hdet Hact] Hr. unfold controller_step, detecting_since.
    destruct (v_state v) eqn:E.
    + destruct (Js.geb (computed_css r) (ssiEngage params)) eqn:G; vars_simpl;
        rewrite ?E.
      * split; [|intros [H|H]; discriminate].
        intros _. split; [lia|]. intros j Hj.
        replace j with (S k) by lia. exists r. split; [exact Hr|].
        by apply geb_true.
      * split; [discriminate | intros [H|H]; discriminate].
    + destruct (Hdet eq_refl) as (Hds & Hpast).
      rewrite ltb_negb_geb.
      destruct (Js.geb (computed_css r) (ssiEngage params)) eqn:G; simpl.
      2:{ vars_simpl. split; [discriminate | intros [H|H]; discriminate]. }
      apply geb_true in G.
      destruct (Z.leb_spec (holdoffSamples params)
                  (Z.of_nat (S k) - detectionStartIdx v)); vars_simpl;
        rewrite ?E.
      * split; [discriminate|]. intros _. lia.
      * split; [|intros [H'|H']; discriminate].
        intros _. split; [lia|]. intros j Hj.
        destruct (decide (j = S k)) as [->|Hne].
        -- exists r. by split.
        -- apply Hpast. lia.
    + specialize (Hact (or_introl eq_refl)).
      destruct (Js.ltb (computed_css r) (ssiRecovery params)); vars_simpl;
        rewrite ?E; (split; [discriminate|]); intros _; lia.
    + specialize (Hact (or_intror eq_refl)).
      repeat match goal with
        | |- context [if ?c then _ else _] => destruct c
        end;
      vars_simpl; rewrite ?E;
      (split; [discriminate|]); try (intros _; lia);
      intros [H|H]; discriminate.
Qed.

(** The hold-off is honoured.  No output before sample [holdoffSamples] is
    MITIGATING or RECOVERING; and when DETECTING turns into MITIGATING at
    sample [i], every sample from [i - holdoffSamples] to [i] exists and
    reached the engage threshold. *)
Theorem mitigation_waits_for_holdoff
    (params : ControllerParams) (nominalWob nominalRpm : Q)
    (rows : list ProcessedRow) :
  (forall (k : nat) (o : ControllerOutput),
     runController params nominalWob nominalRpm rows !! k = Some o ->
     state o = MITIGATING \/ state o = RECOVERING ->
     holdoffSamples params <= Z.of_nat k) /\
  (forall (k : nat) (o o' : ControllerOutput),
     runController params nominalWob nominalRpm rows !! k = Some o ->
     runController params nominalWob nominalRpm rows !! S k = Some o' ->
     state o = DETECTING ->
     state o' = MITIGATING ->
     forall j : nat,
       Z.of_nat (S k) - holdoffSamples params <= Z.of_nat j <= Z.of_nat (S k) ->
       exists r, rows !! j = Some r /\ (ssiEngage params <= computed_css r)%Q).
Proof.
  unfold runController. split.
  - intros k o Ho Hs.
    destruct (output_lookup _ _ _ _ _ _ _ _ Ho) as (v & Hv & ->).
    by apply (detecting_since_holds _ _ _ _ _ _ Hv).
  - intros k o o' Ho Ho' Hs Hs' j Hj.
    destruct (output_lookup _ _ _ _ _ _ _ _ Ho) as (v1 & Hv1 & ->).
    destruct (output_lookup _ _ _ _ _ _ _ _ Ho') as (v2 & Hv2 & ->).
    destruct (trace_next _ _ _ _ _ _ _ _ Hv2) as (v1' & r & Hv1' & Hr & ->).
    rewrite Hv1 in Hv1'. injection Hv1' as <-.
    destruct (detecting_since_holds _ _ _ _ _ _ Hv1) as [Hdet _].
    cbn [output_of state] in Hs, Hs'.
    destruct (Hdet Hs) as (Hds & Hpast).
    unfold controller_step in Hs'. rewrite Hs in Hs'.
    rewrite ltb_negb_geb in Hs'.
    destruct (Js.geb (computed_css r) (ssiEngage params)) eqn:G;
      simpl in Hs'; [|discriminate].
    apply geb_true in G.
    destruct (Z.leb_spec (holdoffSamples params)
                (0 + Z.of_nat (S k) - detectionStartIdx v1));
      [|rewrite Hs in Hs'; discriminate].
    destruct (decide (j = S k)) as [->|Hne].
    + exists r. by split.
    + apply Hpast. lia.
Qed.

Lemma mitigation_waits_for_holdoff_witness :
  exists o : ControllerOutput,
    runController quick_controller 100 120 mitigation_run !! 1%nat = Some o /\
    (state o = MITIGATING \/ state o = RECOVERING) /\
    holdoffSamples quick_controller <= Z.of_nat 1.
Proof.
  eexists. split; [reflexivity|]. split; [left; reflexivity|].
  refine (proj1 (mitigation_waits_for_holdoff quick_controller 100 120
                   mitigation_run) 1%nat _ _ _); [reflexivity|].
  left. reflexivity.
Defined.

(** ** Recovery always completes *)

Lemma Qnat_succ (n : nat) : (Qnat (S n) == Qnat n + 1)%Q.
Proof.
  unfold Qnat. rewrite Nat2Z.inj_succ, <- Z.add_1_r, inject_Z_plus.
  reflexivity.
Qed.

Lemma trace_drop (params : ControllerParams) (nominalWob nominalRpm : Q)
    (rows : list ProcessedRow) :
  forall (i : Z) (v : Vars) (k : nat) (vk : Vars),
    vars_trace params nominalWob nominalRpm i v rows !! k = Some vk ->
    drop (S k) (vars_trace params nominalWob nominalRpm i v rows)
    = vars_trace params nominalWob nominalRpm (i + Z.of_nat (S k)) vk
        (drop (S k) rows).
Proof.
  induction rows as [|r rest IH]; intros i v k vk Hk; [discriminate|].
  cbn [vars_trace] in *. destruct k as [|k].
  - injection Hk as <-. cbn [drop]. rewrite !drop_0. f_equal; lia.
  - change (drop (S (S k)) (?x :: ?l)) with (drop (S k) l).
    change ((?x :: ?l) !! S k) with (l !! k) in Hk.
    rewrite (IH _ _ _ _ Hk). f_equal; lia.
Qed.

Lemma recovering_since_holds (params : ControllerParams)
    (nominalWob nominalRpm : Q) (rows : list ProcessedRow) (k : nat) (v : Vars) :
  vars_trace params nominalWob nominalRpm 0
    (initial_vars nominalWob nominalRpm) rows !! k = Some v ->
  recovering_since k v.
Proof.
  revert k v. apply trace_indexed_invariant.
  - intros r _. unfold controller_step, recovering_since.
    cbn [initial_vars v_state].
    destruct (Js.geb _ _); vars_simpl; discriminate.
  - intros k v r _ Hv _. unfold controller_step, recovering_since in *.
    destruct (v_state v) eqn:E;
      repeat match goal with
        | |- context [if ?c then _ else _] => destruct c
        end;
      vars_simpl; rewrite ?E; try discriminate; intros _;
      try specialize (Hv eq_refl); lia.
Qed.

Section Recovery.

Variable params : ControllerParams.
Variables nominalWob nominalRpm : Q.
Hypothesis nominalWob_nonneg : (0 <= nominalWob)%Q.

(** One iteration of the ramp on a quiet sample: either NORMAL is reached,
    or the WOB set-point has grown by 0.8 percent of nominal and is still
    below 98 percent. *)
Lemma ramp_step (i : Z) (css : Q) (v : Vars) :
  v_state v = RECOVERING ->
  recoveryStartIdx v + 12 <= i ->
  (css < ssiEngage params)%Q ->
  v_state (controller_step params nominalWob nominalRpm i css v) = NORMAL \/
  (v_state (controller_step params nominalWob nominalRpm i css v) = RECOVERING /\
   recoveryStartIdx (controller_step params nominalWob nominalRpm i css v)
   = recoveryStartIdx v /\
   (wobSp (controller_step params nominalWob nominalRpm i css v)
    == wobSp v + 0.008 * nominalWob)%Q /\
   (wobSp (controller_step params nominalWob nominalRpm i css v)
    < 0.98 * nominalWob)%Q).
Proof.
  intros Hs Hrs Hcss. unfold controller_step.
  rewrite Hs, (proj2 (geb_false _ _) Hcss).
  destruct (Z.leb_spec 12 (i - recoveryStartIdx v)); [|lia].
  vars_simpl.
  destruct (Js.geb (Js.min nominalWob (wobSp v + 0.008 * nominalWob)%Q)
              (nominalWob * 0.98)%Q) eqn:G; vars_simpl; [by left|].
  right. apply geb_false in G. unfold Js.min in *.
  destruct (Q.min_spec nominalWob (wobSp v + 0.008 * nominalWob))
    as [[Hlt Hmin]|[Hle Hmin]]; rewrite Hmin in G |- *.
  - exfalso. lra.
  - split; [exact Hs|]. split; [reflexivity|]. split; [reflexivity | lra].
Qed.

(** The ramp: once twelve samples have passed since the recovery started,
    NORMAL is reached within [n + 1] quiet samples if [n + 1] increments
    reach 98 percent of nominal WOB. *)
Lemma ramp_reaches_normal (n : nat) :
  forall (rows : list ProcessedRow) (i : Z) (v : Vars),
    v_state v = RECOVERING ->
    recoveryStartIdx v + 12 <= i ->
    (forall (j : nat) (r : ProcessedRow), (j <= n)%nat ->
       rows !! j = Some r -> (computed_css r < ssiEngage params)%Q) ->
    (n < length rows)%nat ->
    (0.98 * nominalWob <= wobSp v + Qnat (S n) * (0.008 * nominalWob))%Q ->
    exists (j : nat) (v' : Vars),
      (j <= n)%nat /\
      vars_trace params nominalWob nominalRpm i v rows !! j = Some v' /\
      v_state v' = NORMAL.
Proof.
  induction n as [|n IH]; intros rows i v Hs Hrs Hquiet Hlen Hbudget.
  - destruct rows as [|r rest]; [simpl in Hlen; lia|].
    pose proof (Hquiet 0%nat r ltac:(lia) eq_refl) as Hr.
    destruct (ramp_step i (computed_css r) v Hs Hrs Hr)
      as [Hn|(_ & _ & Hw & Hbelow)].
    + exists 0%nat. eexists. split; [lia|]. split; [reflexivity | exact Hn].
    + exfalso. rewrite Qnat_succ in Hbudget.
      change (Qnat 0) with 0%Q in Hbudget. lra.
  - destruct rows as [|r rest]; [simpl in Hlen; lia|].
    pose proof (Hquiet 0%nat r ltac:(lia) eq_refl) as Hr.
    destruct (ramp_step i (computed_css r) v Hs Hrs Hr)
      as [Hn|(Hs' & Hrs' & Hw & Hbelow)].
    + exists 0%nat. eexists. split; [lia|]. split; [reflexivity | exact Hn].
    + destruct (IH rest (i + 1)
                  (controller_step params nominalWob nominalRpm i
                     (computed_css r) v))
        as (j & v' & Hj & Hv' & Hn).
      * exact Hs'.
      * lia.
      * intros j r' Hj Hr'. apply (Hquiet (S j) r'); [lia | exact Hr'].
      * simpl in Hlen. lia.
      * rewrite Hw. rewrite (Qnat_succ (S n)) in Hbudget. lra.
      * exists (S j), v'. split; [lia|]. split; [exact Hv' | exact Hn].
Qed.

(** The hold: for at most [h] samples the iteration leaves the variables
    untouched, then the ramp starts. *)
Lemma hold_then_ramp (n h : nat) :
  forall (rows : list ProcessedRow) (i : Z) (v : Vars),
    v_state v = RECOVERING ->
    recoveryStartIdx v + 12 - i <= Z.of_nat h ->
    (forall (j : nat) (r : ProcessedRow), (j <= h + n)%nat ->
       rows !! j = Some r -> (computed_css r < ssiEngage params)%Q) ->
    (h + n < length rows)%nat ->
    (0.98 * nominalWob <= wobSp v + Qnat (S n) * (0.008 * nominalWob))%Q ->
    exists (j : nat) (v' : Vars),
      (j <= h + n)%nat /\
      vars_trace params nominalWob nominalRpm i v rows !! j = Some v' /\
      v_state v' = NORMAL.
Proof.
  induction h as [|h IH]; intros rows i v Hs Hrs Hquiet Hlen Hbudget.
  - apply ramp_reaches_normal; try assumption. lia.
  - destruct (Z_le_gt_dec (recoveryStartIdx v + 12) i) as [Hramp|Hhold].
    + destruct (ramp_reaches_normal n rows i v Hs Hramp) as (j & v' & Hj & H);
        try assumption.
      * intros j r Hj. apply Hquiet. lia.
      * lia.
      * exists j, v'. split; [lia | exact H].
    + destruct rows as [|r rest]; [simpl in Hlen; lia|].
      pose proof (Hquiet 0%nat r ltac:(lia) eq_refl) as Hr.
      assert (Hstep :
        controller_step params nominalWob nominalRpm i (computed_css r) v = v).
      { unfold controller_step. rewrite Hs, (proj2 (geb_false _ _) Hr).
        by destruct (Z.leb_spec 12 (i - recoveryStartIdx v)); [lia|]. }
      cbn [vars_trace]. rewrite Hstep.
      destruct (IH rest (i + 1) v Hs) as (j & v' & Hj & Hv' & Hn).
      * lia.
      * intros j r' Hj Hr'. apply (Hquiet (S j) r'); [lia | exact Hr'].
      * simpl in Hlen. lia.
      * exact Hbudget.
      * exists (S j), v'. split; [lia|]. split; [exact Hv' | exact Hn].
Qed.

End Recovery.

(** Recovery always completes: under the actuator limits' assumptions, once
    an output is RECOVERING and the next 134 samples all stay below the
    engage threshold, one of these 134 outputs is NORMAL (at most 11
    samples of hold, then at most 123 ramp steps of 0.8 percent). *)
Theorem recovery_completes
    (params : ControllerParams) (nominalWob nominalRpm : Q)
    (rows : list ProcessedRow) (k : nat) (o : ControllerOutput) :
  (0 <= kpWob params)%Q ->
  (0 <= wobMinFraction params)%Q ->
  (wobMinFraction params <= 1)%Q ->
  (0 <= kpRpm params)%Q ->
  (0 <= rpmMaxIncrease params)%Q ->
  (0 <= nominalWob)%Q ->
  runController params nominalWob nominalRpm rows !! k = Some o ->
  state o = RECOVERING ->
  (k + 134 < length rows)%nat ->
  (forall (j : nat) (r : ProcessedRow), (k < j <= k + 134)%nat ->
     rows !! j = Some r -> (computed_css r < ssiEngage params)%Q) ->
  exists (j : nat) (o' : ControllerOutput),
    (k < j <= k + 134)%nat /\
    runController params nominalWob nominalRpm rows !! j = Some o' /\
    state o' = NORMAL.
Proof.
  intros HkW Hfl0 Hfl1 HkR Hmax HnW Ho Hs Hlen Hquiet.
  unfold runController in Ho.
  destruct (output_lookup _ _ _ _ _ _ _ _ Ho) as (vk & Hvk & ->).
  cbn [output_of state] in Hs.
  pose proof (recovering_since_holds _ _ _ _ _ _ Hvk Hs) as Hrs.
  assert (Hwob : (0 <= wobSp vk)%Q).
  { assert (Hall : Forall
              (fun v => within_limits params nominalWob nominalRpm
                          (wobSp v) (rpmSp v))
              (vars_trace params nominalWob nominalRpm 0
                 (initial_vars nominalWob nominalRpm) rows)).
    { apply trace_invariant.
      - intros i css v Hv. by apply step_within_limits.
      - by apply nominal_within_limits. }
    rewrite Forall_lookup in Hall. destruct (Hall _ _ Hvk) as (Hlow & _).
    assert (0 <= nominalWob * wobMinFraction params)%Q
      by (by apply Qmult_le_0_compat).
    lra. }
  destruct (hold_then_ramp params nominalWob nominalRpm HnW 122 11
              (drop (S k) rows) (0 + Z.of_nat (S k)) vk Hs)
    as (j & v' & Hj & Hv' & Hn).
  - lia.
  - intros j r Hj Hr. rewrite lookup_drop in Hr.
    apply (Hquiet (S k + j)%nat r); [lia | exact Hr].
  - rewrite length_drop. lia.
  - change (Qnat 123) with 123%Q. lra.
  - rewrite <- (trace_drop _ _ _ _ _ _ _ _ Hvk), lookup_drop in Hv'.
    exists (S k + j)%nat, (output_of v'). split; [lia|]. split; [|exact Hn].
    by apply trace_lookup_output.
Qed.

Lemma recovery_completes_witness :
  exists (j : nat) (o' : ControllerOutput),
    (4 < j <= 4 + 134)%nat /\
    runController quick_controller 100 120 recovery_run !! j = Some o' /\
    state o' = NORMAL.
Proof.
  eapply (recovery_completes quick_controller 100 120 recovery_run 4).
  - vm_compute; discriminate.
  - vm_compute; discriminate.
  - vm_compute; discriminate.
  - vm_compute; discriminate.
  - vm_compute; discriminate.
  - vm_compute; discriminate.
  - vm_compute. reflexivity.
  - reflexivity.
  - vm_compute. lia.
  - intros j r Hj Hr. unfold recovery_run in Hr.
    rewrite lookup_app_r in Hr by (simpl; lia).
    apply lookup_replicate in Hr as [-> _]. reflexivity.
Defined.

(** ** Where the set-points actually differ from nominal *)

Section RecoveryIsNominal.

Variable params : ControllerParams.
Variables nominalWob nominalRpm : Q.
Hypothesis recovery_below_engage : (ssiRecovery params <= ssiEngage params)%Q.
Hypothesis floor_le_1 : (wobMinFraction params <= 1)%Q.
Hypothesis maxIncrease_nonneg : (0 <= rpmMaxIncrease params)%Q.
Hypothesis nominalWob_nonneg : (0 <= nominalWob)%Q.

Lemma mitigating_at_low_severity (css : Q) :
  (css < ssiRecovery params)%Q ->
  (mitigating_wob params nominalWob css == nominalWob)%Q /\
  (mitigating_rpm params nominalRpm css == nominalRpm)%Q.
Proof.
  intros Hcss. unfold mitigating_wob, mitigating_rpm, excess_of, Js.max, Js.min.
  rewrite (Q.max_l 0 (css - ssiEngage params)) by lra.
  split.
  - rewrite Q.max_r; [ring | nra].
  - rewrite Q.min_r; [ring | lra].
Qed.

Lemma step_recovering_nominal (i : Z) (css : Q) (v : Vars) :
  (v_state v = RECOVERING ->
   (wobSp v == nominalWob)%Q /\ (rpmSp v == nominalRpm)%Q) ->
  v_state (controller_step params nominalWob nominalRpm i css v) = RECOVERING ->
  (wobSp (controller_step params nominalWob nominalRpm i css v) == nominalWob)%Q
  /\ (rpmSp (controller_step params nominalWob nominalRpm i css v)
      == nominalRpm)%Q.
Proof.
  intros Hv. unfold controller_step. destruct (v_state v) eqn:E.
  - destruct (Js.geb css (ssiEngage params)); vars_simpl; rewrite ?E;
      discriminate.
  - destruct (Js.ltb css (ssiEngage params)); vars_simpl; [discriminate|].
    destruct (holdoffSamples params <=? i - detectionStartIdx v); vars_simpl;
      rewrite ?E; discriminate.
  - destruct (Js.ltb css (ssiRecovery params)) eqn:L; vars_simpl;
      rewrite ?E; [|discriminate].
    intros _. apply mitigating_at_low_severity. by apply ltb_true.
  - destruct (Hv eq_refl) as [Hw Hr].
    destruct (Js.geb css (ssiEngage params)); vars_simpl; [discriminate|].
    destruct (12 <=? i - recoveryStartIdx v); vars_simpl; [|by intros _].
    destruct (Js.geb _ (nominalWob * 0.98)%Q); vars_simpl; [discriminate|].
    intros _. unfold Js.min, Js.max. rewrite Hw, Hr. split.
    + rewrite Q.min_l; [reflexivity | lra].
    + rewrite Q.max_l; [reflexivity | lra].
Qed.

End RecoveryIsNominal.

(** With the recovery threshold at or below the engage threshold (and a
    floor fraction of at most 1, a non-negative RPM allowance and a
    non-negative nominal WOB), every RECOVERING output already carries the
    nominal set-points: the sample that triggers the recovery has no excess
    over the engage threshold, so the set-points it computes are nominal,
    and the hold and the ramp keep them there. *)
Theorem recovering_outputs_are_nominal
    (params : ControllerParams) (nominalWob nominalRpm : Q)
    (rows : list ProcessedRow) :
  (ssiRecovery params <= ssiEngage params)%Q ->
  (wobMinFraction params <= 1)%Q ->
  (0 <= rpmMaxIncrease params)%Q ->
  (0 <= nominalWob)%Q ->
  Forall
    (fun o =>
       state o = RECOVERING ->
       (wob_setpoint o == nominalWob)%Q /\ (rpm_setpoint o == nominalRpm)%Q)
    (runController params nominalWob nominalRpm rows).
Proof.
  intros Hrec Hfl Hmax HnW.
  unfold runController. rewrite controller_loop_trace.
  apply List.Forall_map.
  apply (trace_invariant params nominalWob nominalRpm
           (fun v => v_state v = RECOVERING ->
                     (wobSp v == nominalWob)%Q /\ (rpmSp v == nominalRpm)%Q)).
  - intros i css v Hv. by apply step_recovering_nominal.
  - discriminate.
Qed.

Lemma recovering_outputs_are_nominal_witness :
  Forall
    (fun o =>
       state o = RECOVERING ->
       (wob_setpoint o == 100)%Q /\ (rpm_setpoint o == 120)%Q)
    (runController quick_controller 100 120 mitigation_run).
Proof.
  apply (recovering_outputs_are_nominal quick_controller 100 120 mitigation_run);
    vm_compute; discriminate.
Defined.

(** With those same parameters a recovery lasts exactly twelve samples when
    the severity stays below the engage threshold: if MITIGATING turns into
    RECOVERING at sample [i], the outputs [i .. i + 11] are RECOVERING and
    output [i + 12] is NORMAL with nominal set-points. *)
Theorem recovery_lasts_twelve_samples
    (params : ControllerParams) (nominalWob nominalRpm : Q)
    (rows : list ProcessedRow) (k : nat) (o o' : ControllerOutput) :
  (ssiRecovery params <= ssiEngage params)%Q ->
  (wobMinFraction params <= 1)%Q ->
  (0 <= rpmMaxIncrease params)%Q ->
  (0 <= nominalWob)%Q ->
  runController params nominalWob nominalRpm rows !! k = Some o ->
  state o = MITIGATING ->
  runController params nominalWob nominalRpm rows !! S k = Some o' ->
  state o' = RECOVERING ->
  (S k + 12 < length rows)%nat ->
  (forall (j : nat) (r : ProcessedRow), (S k < j <= S k + 12)%nat ->
     rows !! j = Some r -> (computed_css r < ssiEngage params)%Q) ->
  (forall j : nat, (S k <= j < S k + 12)%nat ->
     exists oj, runController params nominalWob nominalRpm rows !! j = Some oj
                /\ state oj = RECOVERING) /\
  runController params nominalWob nominalRpm rows !! (S k + 12)%nat
  = Some (idle_output nominalWob nominalRpm).
Proof.
  intros Hrec Hfl Hmax HnW Ho Hs Ho' Hs' Hlen Hquiet.
  unfold runController in Ho, Ho'.
  destruct (output_lookup _ _ _ _ _ _ _ _ Ho) as (vk & Hvk & ->).
  destruct (output_lookup _ _ _ _ _ _ _ _ Ho') as (v1 & Hv1 & ->).
  destruct (trace_next _ _ _ _ _ _ _ _ Hv1) as (vk' & r0 & Hvk' & _ & Ev1).
  rewrite Hvk in Hvk'. injection Hvk' as <-.
  cbn [output_of state] in Hs, Hs'.
  assert (Hstart : recoveryStartIdx v1 = Z.of_nat (S k)).
  { rewrite Ev1 in Hs' |- *. unfold controller_step in Hs' |- *.
    rewrite Hs in Hs' |- *.
    destruct (Js.ltb (computed_css r0) (ssiRecovery params));
      vars_simpl; [lia|].
    revert Hs'. vars_simpl. rewrite Hs. discriminate. }
  assert (Hnominal : (wobSp v1 == nominalWob)%Q).
  { rewrite Ev1. apply step_recovering_nominal; try assumption.
    - rewrite Hs. discriminate.
    - by rewrite <- Ev1. }
  assert (Hhold : forall j : nat, (j <= 11)%nat ->
            vars_trace params nominalWob nominalRpm 0
              (initial_vars nominalWob nominalRpm) rows !! (S k + j)%nat
            = Some v1).
  { induction j as [|j IH]; intros Hj.
    - by rewrite Nat.add_0_r.
    - specialize (IH ltac:(lia)).
      destruct (lookup_lt_is_Some_2
                  (vars_trace params nominalWob nominalRpm 0
                     (initial_vars nominalWob nominalRpm) rows)
                  (S k + S j)) as [v2 Hv2].
      { rewrite trace_length. lia. }
      rewrite Hv2. f_equal.
      replace (S k + S j)%nat with (S (S k + j)) in Hv2 by lia.
      destruct (trace_next _ _ _ _ _ _ _ _ Hv2) as (v & r & Hv & Hr & ->).
      rewrite IH in Hv. injection Hv as <-.
      pose proof (Hquiet (S (S k + j)) r ltac:(lia) Hr) as Hcss.
      unfold controller_step. rewrite Hs', (proj2 (geb_false _ _) Hcss).
      by destruct (Z.leb_spec 12 (0 + Z.of_nat (S (S k + j))
                                  - recoveryStartIdx v1)); [lia|]. }
  split.
  - intros j Hj. exists (output_of v1). split; [|exact Hs'].
    apply trace_lookup_output.
    replace j with (S k + (j - S k))%nat by lia. apply Hhold. lia.
  - destruct (lookup_lt_is_Some_2
                (vars_trace params nominalWob nominalRpm 0
                   (initial_vars nominalWob nominalRpm) rows)
                (S k + 12)) as [v3 Hv3].
    { rewrite trace_length. lia. }
    rewrite (trace_lookup_output _ _ _ _ _ _ Hv3). f_equal.
    replace (S k + 12)%nat with (S (S k + 11)) in Hv3 by lia.
    destruct (trace_next _ _ _ _ _ _ _ _ Hv3) as (v & r & Hv & Hr & ->).
    rewrite Hhold in Hv by lia. injection Hv as <-.
    pose proof (Hquiet (S (S k + 11)) r ltac:(lia) Hr) as Hcss.
    unfold controller_step. rewrite Hs', (proj2 (geb_false _ _) Hcss).
    destruct (Z.leb_spec 12 (0 + Z.of_nat (S (S k + 11))
                             - recoveryStartIdx v1)); [|lia].
    vars_simpl.
    destruct (Js.geb (Js.min nominalWob (wobSp v1 + 0.008 * nominalWob)%Q)
                (nominalWob * 0.98)%Q) eqn:G; [reflexivity|].
    exfalso. apply geb_false in G. unfold Js.min in G.
    destruct (Q.min_spec nominalWob (wobSp v1 + 0.008 * nominalWob))
      as [[_ E]|[_ E]]; rewrite E in G; lra.
Qed.

Lemma recovery_lasts_twelve_samples_witness :
  runController quick_controller 100 120 recovery_run !! (S 3 + 12)%nat
  = Some (idle_output 100 120).
Proof.
  eapply (recovery_lasts_twelve_samples quick_controller 100 120
            recovery_run 3).
  - vm_compute; discriminate.
  - vm_compute; discriminate.
  - vm_compute; discriminate.
  - vm_compute; discriminate.
  - vm_compute. reflexivity.
  - reflexivity.
  - vm_compute. reflexivity.
  - reflexivity.
  - vm_compute. lia.
  - intros j r Hj Hr. unfold recovery_run in Hr.
    rewrite lookup_app_r in Hr by (simpl; lia).
    apply lookup_replicate in Hr as [-> _]. reflexivity.
Defined.

Example recovery_run_states :
  map state (take 18 (runController quick_controller 100 120 recovery_run))
  = [DETECTING; MITIGATING; MITIGATING; MITIGATING;
     RECOVERING; RECOVERING; RECOVERING; RECOVERING; RECOVERING; RECOVERING;
     RECOVERING; RECOVERING; RECOVERING; RECOVERING; RECOVERING; RECOVERING;
     NORMAL; NORMAL].
Proof. vm_compute. reflexivity. Qed.

Lemma excess_monotone (params : ControllerParams) (a b : Q) :
  (a <= b)%Q -> (excess_of params a <= excess_of params b)%Q.
Proof.
  intros H. unfold excess_of. apply max_upper; [apply max_lower_l|].
  eapply Qle_trans; [|apply max_lower_r]. lra.
Qed.

(** The response is monotone: for non-negative gains and nominal WOB, of two
    iterations taken in MITIGATING the one with the higher severity sets a
    WOB set-point that is no higher and an RPM set-point that is no lower. *)
Theorem mitigation_is_monotone
    (params : ControllerParams) (nominalWob nominalRpm : Q)
    (i i' : Z) (css css' : Q) (v v' : Vars) :
  (0 <= kpWob params)%Q ->
  (0 <= kpRpm params)%Q ->
  (0 <= nominalWob)%Q ->
  v_state v = MITIGATING ->
  v_state v' = MITIGATING ->
  (css <= css')%Q ->
  (wobSp (controller_step params nominalWob nominalRpm i' css' v')
   <= wobSp (controller_step params nominalWob nominalRpm i css v))%Q /\
  (rpmSp (controller_step params nominalWob nominalRpm i css v)
   <= rpmSp (controller_step params nominalWob nominalRpm i' css' v'))%Q.
Proof.
  intros HkW HkR HnW Hs Hs' Hle.
  destruct (step_from_mitigating params nominalWob nominalRpm i css v Hs)
    as (_ & -> & ->).
  destruct (step_from_mitigating params nominalWob nominalRpm i' css' v' Hs')
    as (_ & -> & ->).
  pose proof (excess_monotone params css css' Hle) as He.
  pose proof (max_lower_l 0 (css - ssiEngage params)) as H0.
  fold (excess_of params css) in H0.
  unfold mitigating_wob, mitigating_rpm. split.
  - apply max_upper; [apply max_lower_l|].
    eapply Qle_trans; [|apply max_lower_r].
    assert (kpWob params * excess_of params css * nominalWob
            <= kpWob params * excess_of params css' * nominalWob)%Q.
    { apply Qmult_le_compat_r; [|exact HnW].
      rewrite !(Qmult_comm (kpWob params)).
      by apply Qmult_le_compat_r. }
    lra.
  - apply min_lower; [apply min_upper_l|].
    eapply Qle_trans; [apply min_upper_r|].
    assert (kpRpm params * excess_of params css
            <= kpRpm params * excess_of params css')%Q.
    { rewrite !(Qmult_comm (kpRpm params)). by apply Qmult_le_compat_r. }
    lra.
Qed.

Lemma mitigation_is_monotone_witness :
  (wobSp (controller_step quick_controller 100 120 7 0.8
            {| v_state := MITIGATING; detectionStartIdx := 2;
               recoveryStartIdx := 0; wobSp := 100; rpmSp := 120 |})
   <= wobSp (controller_step quick_controller 100 120 7 0.55
               {| v_state := MITIGATING; detectionStartIdx := 2;
                  recoveryStartIdx := 0; wobSp := 100; rpmSp := 120 |}))%Q.
Proof.
  apply (mitigation_is_monotone quick_controller 100 120 7 7 0.55 0.8);
    try reflexivity; vm_compute; discriminate.
Defined.

(** ** Playback *)

Lemma ema_update_rising (y raw : Q) :
  (y < raw)%Q -> (ema_update y raw == 0.4 * raw + (1 - 0.4) * y)%Q.
Proof.
  intros H. unfold ema_update. by rewrite (proj2 (gtb_true raw y) H).
Qed.

Lemma ema_update_falling (y raw : Q) :
  (raw <= y)%Q -> (ema_update y raw == 0.08 * raw + (1 - 0.08) * y)%Q.
Proof.
  intros H. unfold ema_update.
  destruct (Js.gtb raw y) eqn:E; [|reflexivity].
  apply gtb_true in E. exfalso. exact (Qlt_not_le _ _ E H).
Qed.

Lemma ema_update_interval (y raw lo hi : Q) :
  (lo <= y <= hi)%Q -> (lo <= raw <= hi)%Q ->
  (lo <= ema_update y raw <= hi)%Q.
Proof.
  intros Hy Hraw. destruct (Qlt_le_dec y raw) as [H|H].
  - rewrite (ema_update_rising _ _ H). split; lra.
  - rewrite (ema_update_falling _ _ H). split; lra.
Qed.



Lemma speed_samples_range (i : nat) : 0 <= speed_samples i <= 100.
Proof.
  unfold speed_samples, SPEEDS.
  do 5 (destruct i as [|i]; [simpl; lia|]). simpl. lia.
Qed.

Lemma css_at_in_unit (processed : list ProcessedRow) (idx : Z) :
  css_in_unit processed -> (0 <= css_at processed idx <= 1)%Q.
Proof.
  intros H. unfold css_at, Js.index.
  destruct (idx <? 0); simpl; [lra|].
  destruct (processed !! Z.to_nat idx) as [r|] eqn:E; simpl; [|lra].
  unfold css_in_unit in H. rewrite Forall_lookup in H. exact (H _ _ E).
Qed.

Lemma tick_cursor (processed : list ProcessedRow) (samples : Z) (ts : Q)
    (pb : Playback) :
  0 <= samples ->
  cursorIdx pb <= cursorIdxRef pb ->
  cursorIdxRef pb <= Z.of_nat (length processed) - 1 ->
  cursorIdx pb <= cursorIdx (tick processed samples ts pb) /\
  cursorIdx (tick processed samples ts pb)
  <= cursorIdxRef (tick processed samples ts pb) /\
  cursorIdxRef pb <= cursorIdxRef (tick processed samples ts pb) /\
  cursorIdxRef (tick processed samples ts pb) <= cursorIdxRef pb + samples /\
  cursorIdxRef (tick processed samples ts pb) <= Z.of_nat (length processed) - 1.
Proof.
  intros Hs Hc Hr. unfold tick.
  repeat match goal with
    | |- context [if ?c then _ else _] => destruct c
    end; simpl; lia.
Qed.

Lemma apply_action_cursor (a : Action) (e : Engine) :
  cursor_in_range e -> action_offered e a -> cursor_in_range (apply_action a e).
Proof.
  unfold cursor_in_range. intros (H0 & H1 & H2) Ha.
  destruct a as [ts| | | |value|i|processed']; cbn [apply_action e_playback
    e_processed].
  - destruct (playing (e_playback e)); [|lia].
    pose proof (speed_samples_range (e_speedIdx e)) as [Hs _].
    pose proof (tick_cursor (e_processed e) _ ts _ Hs H1 H2). lia.
  - simpl. lia.
  - unfold restart_if_playing.
    destruct (atEnd (e_processed e) (e_playback e));
      repeat match goal with
        | |- context [if ?c then _ else _] => destruct c
        end; simpl; lia.
  - simpl. lia.
  - simpl in Ha |- *. lia.
  - unfold restart_if_playing. destruct (playing (e_playback e)); simpl; lia.
  - simpl in Ha.
    assert (Hn : (0 < length processed')%nat)
      by (destruct processed'; simpl; [congruence | lia]).
    unfold restart_if_playing.
    destruct (Nat.eqb_spec (length processed') (length (e_processed e)))
      as [Heq|Hne];
      repeat match goal with
        | |- context [if ?c then _ else _] => destruct c
        end; simpl; lia.
Qed.

Lemma run_actions_cursor (actions : list Action) :
  forall e : Engine,
    cursor_in_range e -> actions_offered actions e ->
    cursor_in_range (run_actions actions e).
Proof.
  induction actions as [|a rest IH]; intros e He Hoff; [exact He|].
  destruct Hoff as [Ha Hrest]. cbn [run_actions].
  apply IH; [by apply apply_action_cursor | exact Hrest].
Qed.

(** Whatever the user does (play, pause, restart, jump to end, scrub, change
    speed, change parameters) and however many frames are played, on a
    non-empty recording both cursors stay valid indices and the displayed
    cursor never runs ahead of the animated one; so the displayed row is
    always the row at the displayed cursor, never the fallback
    [processed[0]]. *)
Theorem cursor_stays_in_range
    (processed : list ProcessedRow) (ctrlOutputs : list ControllerOutput)
    (actions : list Action) :
  processed <> [] ->
  actions_offered actions (initial_engine processed) ->
  let e := run_actions actions (initial_engine processed) in
  cursor_in_range e /\
  exists r : ProcessedRow,
    e_processed e !! Z.to_nat (cursorIdx (e_playback e)) = Some r /\
    d_row (display_of (e_processed e) ctrlOutputs (e_playback e)) = Some r.
Proof.
  intros Hne Hoff e.
  assert (Hrange : cursor_in_range e).
  { apply run_actions_cursor; [|exact Hoff].
    unfold cursor_in_range. simpl. destruct processed; [congruence|].
    simpl. lia. }
  split; [exact Hrange|].
  destruct Hrange as (H0 & H1 & H2).
  destruct (lookup_lt_is_Some_2 (e_processed e)
              (Z.to_nat (cursorIdx (e_playback e)))) as [r Hr]; [lia|].
  exists r. split; [exact Hr|].
  unfold display_of, or_first, Js.index. cbn [d_row].
  destruct (Z.ltb_spec (cursorIdx (e_playback e)) 0); [lia|].
  by rewrite Hr.
Qed.

Lemma cursor_stays_in_range_witness :
  holdoff_run <> [] /\
  actions_offered sample_session (initial_engine holdoff_run) /\
  cursor_in_range (run_actions sample_session (initial_engine holdoff_run)).
Proof.
  assert (H1 : holdoff_run <> []) by discriminate.
  assert (H2 : actions_offered sample_session (initial_engine holdoff_run)).
  { simpl. repeat split; try lia; discriminate. }
  split; [exact H1|]. split; [exact H2|].
  exact (proj1 (cursor_stays_in_range holdoff_run [] sample_session H1 H2)).
Defined.

Lemma apply_action_display (a : Action) (e : Engine) :
  css_in_unit (e_processed e) ->
  (forall processed', a = Recomputed processed' -> css_in_unit processed') ->
  (0 <= smoothedCssRef (e_playback e) <= 1)%Q ->
  (0 <= displayCss (e_playback e) <= 1)%Q ->
  css_in_unit (e_processed (apply_action a e)) /\
  (0 <= smoothedCssRef (e_playback (apply_action a e)) <= 1)%Q /\
  (0 <= displayCss (e_playback (apply_action a e)) <= 1)%Q.
Proof.
  intros Hcss Hnew Hs Hd.
  pose proof (css_at_in_unit (e_processed e)) as Hat.
  destruct a as [ts| | | |value|i|processed']; cbn [apply_action e_playback
    e_processed].
  - split; [exact Hcss|]. destruct (playing (e_playback e)); [|by split].
    unfold tick.
    repeat match goal with
      | |- context [if ?c then _ else _] => destruct c
      end; cbn [smoothedCssRef displayCss]; try (by split);
      split; apply ema_update_interval; auto.
  - split; [exact Hcss|]. cbn. split; apply Hat; exact Hcss.
  - split; [exact Hcss|]. unfold restart_if_playing.
    destruct (atEnd (e_processed e) (e_playback e));
      repeat match goal with
        | |- context [if ?c then _ else _] => destruct c
        end; cbn; try (by split); split; apply Hat; exact Hcss.
  - split; [exact Hcss|]. cbn. split; apply Hat; exact Hcss.
  - split; [exact Hcss|]. cbn. split; apply Hat; exact Hcss.
  - split; [exact Hcss|]. unfold restart_if_playing.
    destruct (playing (e_playback e)); cbn; by split.
  - split; [by apply Hnew|]. unfold restart_if_playing.
    repeat match goal with
      | |- context [if ?c then _ else _] => destruct c
      end; cbn; by split.
Qed.

(** If every severity of every installed array lies in [0,1] (as
    [recompute] guarantees for valid weights and non-negative channels), the
    filter memory and the severity shown on the gauge lie in [0,1] after any
    sequence of actions, and the gauge's own clamp changes nothing. *)
Theorem displayed_severity_in_unit_interval
    (processed : list ProcessedRow) (actions : list Action) :
  css_in_unit processed ->
  arrays_satisfy css_in_unit actions ->
  let pb := e_playback (run_actions actions (initial_engine processed)) in
  (0 <= smoothedCssRef pb <= 1)%Q /\
  (0 <= displayCss pb <= 1)%Q /\
  (gauge_sv (displayCss pb) == displayCss pb)%Q.
Proof.
  intros Hcss Harrays.
  assert (Hgen : forall (acts : list Action) (e : Engine),
            css_in_unit (e_processed e) ->
            arrays_satisfy css_in_unit acts ->
            (0 <= smoothedCssRef (e_playback e) <= 1)%Q ->
            (0 <= displayCss (e_playback e) <= 1)%Q ->
            (0 <= smoothedCssRef (e_playback (run_actions acts e)) <= 1)%Q /\
            (0 <= displayCss (e_playback (run_actions acts e)) <= 1)%Q).
  { induction acts as [|a rest IH]; intros e He Hacts Hs Hd; [by split|].
    cbn [run_actions].
    destruct (apply_action_display a e He) as (He' & Hs' & Hd');
      try assumption.
    { intros processed' ->. by destruct Hacts. }
    apply IH; try assumption.
    destruct a; try exact Hacts. by destruct Hacts. }
  cbv zeta.
  destruct (Hgen actions (initial_engine processed) Hcss Harrays)
    as [Hs Hd]; [simpl; lra | simpl; lra|].
  split; [exact Hs|]. split; [exact Hd|].
  unfold gauge_sv, Js.max, Js.min.
  rewrite Q.min_r by apply Hd. apply Q.max_r, Hd.
Qed.

Lemma displayed_severity_in_unit_interval_witness :
  css_in_unit holdoff_run /\
  arrays_satisfy css_in_unit sample_session /\
  (0 <= displayCss
          (e_playback (run_actions sample_session (initial_engine holdoff_run)))
     <= 1)%Q.
Proof.
  assert (H1 : css_in_unit holdoff_run).
  { unfold css_in_unit, holdoff_run.
    repeat constructor; simpl; vm_compute; discriminate. }
  assert (H2 : arrays_satisfy css_in_unit sample_session).
  { simpl. split; [|exact I].
    repeat constructor; simpl; vm_compute; discriminate. }
  split; [exact H1|]. split; [exact H2|].
  exact (proj1 (proj2 (displayed_severity_in_unit_interval
                         holdoff_run sample_session H1 H2))).
Defined.

(** Playback only stops by itself on a displayed frame at the end: when a
    frame turns [playing] from true to false, the displayed cursor and the
    animated cursor both stand on the last index and the displayed severity
    is the filter's current memory; and a frame never starts playback. *)
Theorem playback_stops_on_displayed_end
    (processed : list ProcessedRow) (samples : Z) (ts : Q) (pb : Playback) :
  (playing pb = false -> playing (tick processed samples ts pb) = false) /\
  (playing pb = true ->
   playing (tick processed samples ts pb) = false ->
   cursorIdx (tick processed samples ts pb) = Z.of_nat (length processed) - 1 /\
   cursorIdxRef (tick processed samples ts pb) = Z.of_nat (length processed) - 1 /\
   displayCss (tick processed samples ts pb)
   = smoothedCssRef (tick processed samples ts pb)).
Proof.
  unfold tick. split.
  - intros Hp.
    repeat match goal with
      | |- context [if ?c then _ else _] => destruct c
      end; simpl; congruence.
  - intros Hp.
    destruct (Js.geb _ 16); cbn [playing]; [|congruence].
    destruct (Js.geb _ 66); cbn [playing]; [|congruence].
    destruct (Z.leb_spec (Z.of_nat (length processed) - 1)
                (Z.min (cursorIdxRef pb + samples)
                   (Z.of_nat (length processed) - 1))); [|congruence].
    intros _. cbn [cursorIdx cursorIdxRef displayCss smoothedCssRef].
    repeat split; lia.
Qed.

Lemma playback_stops_on_displayed_end_witness :
  playing paused_at_start = true /\
  playing (tick holdoff_run 20 116 paused_at_start) = false /\
  cursorIdx (tick holdoff_run 20 116 paused_at_start)
  = Z.of_nat (length holdoff_run) - 1.
Proof.
  split; [reflexivity|]. split; [reflexivity|].
  apply (playback_stops_on_displayed_end holdoff_run 20 116 paused_at_start);
    reflexivity.
Defined.

(** ** The score as a function of the channels *)

Lemma clamp_half_monotone (a b : Q) :
  (a <= b)%Q ->
  (Js.max 0 (Js.min 1 (a * 0.5)) <= Js.max 0 (Js.min 1 (b * 0.5)))%Q.
Proof.
  intros H. apply max_upper; [apply max_lower_l|].
  eapply Qle_trans; [|apply max_lower_r].
  apply min_lower; [apply min_upper_l|].
  eapply Qle_trans; [apply min_upper_r|]. lra.
Qed.

Lemma clamp_half_range (a : Q) :
  (0 <= Js.max 0 (Js.min 1 (a * 0.5)) <= 1)%Q.
Proof.
  split; [apply max_lower_l|]. apply max_upper; [lra | apply min_upper_l].
Qed.



(** ** The chart's sampling *)

Lemma filter_skip {A : Type} (s : nat) (q : Z) (d : nat) :
  forall (j : nat) (l : list A),
    (1 <= j)%nat -> (j + d = s)%nat ->
    filter_indexed (fun _ i => i mod Z.of_nat s =? 0)
      (q * Z.of_nat s + Z.of_nat j) l
    = filter_indexed (fun _ i => i mod Z.of_nat s =? 0)
        ((q + 1) * Z.of_nat s) (drop d l).
Proof.
  induction d as [|d IH]; intros j l Hj Hs.
  - rewrite drop_0. f_equal. lia.
  - destruct l as [|x rest]; [reflexivity|].
    cbn [filter_indexed drop].
    assert (Hmod : (q * Z.of_nat s + Z.of_nat j) mod Z.of_nat s = Z.of_nat j).
    { rewrite Z.add_comm, Z_mod_plus_full. apply Z.mod_small. lia. }
    rewrite Hmod. destruct (Z.eqb_spec (Z.of_nat j) 0); [lia|].
    replace (q * Z.of_nat s + Z.of_nat j + 1)
      with (q * Z.of_nat s + Z.of_nat (S j)) by lia.
    apply IH; lia.
Qed.

Lemma filter_mod_lookup {A : Type} (s : nat) :
  (1 <= s)%nat ->
  forall (k : nat) (l : list A) (q : Z),
    filter_indexed (fun _ i => i mod Z.of_nat s =? 0) (q * Z.of_nat s) l !! k
    = l !! (k * s)%nat.
Proof.
  intros Hs. induction k as [|k IH]; intros l q;
    (destruct l as [|x rest]; [reflexivity|]);
    cbn [filter_indexed]; rewrite Z_mod_mult, Z.eqb_refl.
  - reflexivity.
  - change ((x :: ?t) !! S k) with (t !! k).
    replace (q * Z.of_nat s + 1) with (q * Z.of_nat s + Z.of_nat 1) by lia.
    rewrite (filter_skip s q (s - 1) 1 rest) by lia.
    rewrite IH, lookup_drop.
    replace (S k * s)%nat with (S (s - 1 + k * s)) by lia.
    reflexivity.
Qed.

Lemma map_indexed_lookup {A B : Type} (f : A -> Z -> B) (l : list A) :
  forall (i : Z) (k : nat),
    map_indexed f i l !! k = (fun x => f x (i + Z.of_nat k)) <$> l !! k.
Proof.
  induction l as [|x rest IH]; intros i k; [reflexivity|].
  destruct k as [|k]; cbn [map_indexed].
  - simpl. do 2 f_equal. lia.
  - change ((?y :: ?t) !! S k) with (t !! k). rewrite IH.
    destruct (rest !! k); simpl; [|reflexivity]. do 2 f_equal. lia.
Qed.

Lemma chart_step_covers (data : list ProcessedRow) :
  1 <= chart_step data /\
  Z.of_nat (length data) <= MAX_POINTS * chart_step data.
Proof.
  unfold chart_step. split; [lia|].
  pose proof (Qle_ceiling
                (inject_Z (Z.of_nat (length data)) / inject_Z MAX_POINTS)) as H.
  set (c := Qceiling _) in *.
  assert (Hc : Z.of_nat (length data) <= MAX_POINTS * c).
  { rewrite Zle_Qle, inject_Z_mult.
    change (inject_Z MAX_POINTS) with 500%Q in *.
    set (a := inject_Z (Z.of_nat (length data))) in *.
    assert (E : (a == a / 500 * 500)%Q) by field.
    set (x := (a / 500)%Q) in *. lra. }
  unfold MAX_POINTS in *. lia.
Qed.

(** The chart shows at most 500 points: exactly the rows at the multiples of
    [step] (so row 0 first), each with the set-points of the controller
    output of that same sample, whenever there is one output per row. *)
Theorem chart_pairs_rows_with_outputs
    (data : list ProcessedRow) (controlOutputs : list ControllerOutput) :
  length controlOutputs = length data ->
  let step := Z.to_nat (chart_step data) in
  (1 <= step)%nat /\
  (length (chartData data controlOutputs) <= 500)%nat /\
  (forall (k : nat) (c : ChartPoint),
     chartData data controlOutputs !! k = Some c ->
     exists (r : ProcessedRow) (o : ControllerOutput),
       data !! (k * step)%nat = Some r /\
       controlOutputs !! (k * step)%nat = Some o /\
       c_elapsed_s c = elapsed_s (telemetry r) /\
       c_css c = computed_css r /\
       c_rpm_sp c = Some (rpm_setpoint o) /\
       c_wob_sp c = Some (wob_setpoint o)) /\
  (forall (k : nat) (r : ProcessedRow),
     data !! (k * step)%nat = Some r ->
     is_Some (chartData data controlOutputs !! k)).
Proof.
  intros Hlen step.
  destruct (chart_step_covers data) as [Hstep Hcover].
  assert (Hs : chart_step data = Z.of_nat step) by (unfold step; lia).
  assert (Hfilter : forall k : nat,
            filter_indexed (fun _ i => i mod chart_step data =? 0) 0 data !! k
            = data !! (k * step)%nat).
  { intros k. rewrite Hs.
    exact (filter_mod_lookup step ltac:(lia) k data 0). }
  assert (Hlook : forall k : nat,
            chartData data controlOutputs !! k
            = (fun r =>
                 let ctrl :=
                   Js.index controlOutputs
                     (Z.min ((0 + Z.of_nat k) * chart_step data)
                        (Z.of_nat (length controlOutputs) - 1)) in
                 {| c_elapsed_s := elapsed_s (telemetry r);
                    c_css := computed_css r;
                    c_rpm_sp := rpm_setpoint <$> ctrl;
                    c_wob_sp := wob_setpoint <$> ctrl |})
              <$> data !! (k * step)%nat).
  { intros k. unfold chartData. by rewrite map_indexed_lookup, Hfilter. }
  split; [lia|]. split; [|split].
  - destruct (decide (length (chartData data controlOutputs) <= 500)%nat)
      as [|Hbig]; [assumption|].
    destruct (lookup_lt_is_Some_2 (chartData data controlOutputs) 500)
      as [c Hc]; [lia|].
    rewrite Hlook in Hc.
    destruct (data !! (500 * step)%nat) as [r|] eqn:E; [|discriminate].
    apply lookup_lt_Some in E. unfold MAX_POINTS in Hcover. lia.
  - intros k c Hc. rewrite Hlook in Hc.
    destruct (data !! (k * step)%nat) as [r|] eqn:E; [|discriminate].
    simpl in Hc. injection Hc as <-.
    pose proof (lookup_lt_Some _ _ _ E) as Hk.
    destruct (lookup_lt_is_Some_2 controlOutputs (k * step)) as [o Ho]; [lia|].
    exists r, o. split; [reflexivity|]. split; [exact Ho|].
    cbn [c_elapsed_s c_css c_rpm_sp c_wob_sp].
    replace (Z.min ((0 + Z.of_nat k) * chart_step data)
               (Z.of_nat (length controlOutputs) - 1))
      with (Z.of_nat (k * step)) by (rewrite Hs; lia).
    rewrite index_nat, Ho. by repeat split.
  - intros k r Hr. rewrite Hlook, Hr. simpl. eauto.
Qed.

Lemma chart_pairs_rows_with_outputs_witness :
  length (runController quick_controller 100 120 mitigation_run)
  = length mitigation_run /\
  (length (chartData mitigation_run
             (runController quick_controller 100 120 mitigation_run))
   <= 500)%nat.
Proof.
  assert (H : length (runController quick_controller 100 120 mitigation_run)
              = length mitigation_run) by reflexivity.
  split; [exact H|].
  exact (proj1 (proj2 (chart_pairs_rows_with_outputs mitigation_run
                         (runController quick_controller 100 120 mitigation_run)
                         H))).
Defined.

(** ** Duration labels *)

Lemma Qfloor_lower (x : Q) (z : Z) : (inject_Z z <= x)%Q -> z <= Qfloor x.
Proof. intros H. rewrite <- (Qfloor_Z z). by apply Qfloor_resp_le. Qed.

Lemma Qfloor_upper (x : Q) (z : Z) : (x < inject_Z z)%Q -> Qfloor x < z.
Proof.
  intros H. rewrite Zlt_Qlt.
  eapply Qle_lt_trans; [apply Qfloor_le | exact H].
Qed.

Lemma Qfloor_bracket (x : Q) :
  (inject_Z (Qfloor x) <= x)%Q /\ (x < inject_Z (Qfloor x) + 1)%Q.
Proof.
  split; [apply Qfloor_le|].
  pose proof (Qlt_floor x) as H. rewrite inject_Z_plus in H. exact H.
Qed.

Lemma js_rem_nonneg (a b : Q) :
  (0 <= a)%Q -> (0 < b)%Q ->
  (js_rem a b == a - b * inject_Z (Qfloor (a / b)))%Q /\
  (0 <= js_rem a b)%Q /\ (js_rem a b < b)%Q.
Proof.
  intros Ha Hb. unfold js_rem, js_trunc.
  assert (Hq : (0 <= a / b)%Q) by (apply Qle_shift_div_l; lra).
  destruct (Js.ltb (a / b) 0) eqn:E.
  { apply ltb_true in E. exfalso. lra. }
  split; [reflexivity|].
  destruct (Qfloor_bracket (a / b)) as [H1 H2].
  assert (Ea : (a == a / b * b)%Q) by (field; lra).
  set (x := (a / b)%Q) in *. set (f := inject_Z (Qfloor x)) in *.
  split; nra.
Qed.


Example formatDuration_rounds_up_to_sixty :
  formatDuration 59.5 = SecondsText 60 /\
  formatDuration 119.5 = MinutesText 1 60 /\
  formatDuration 3725 = HoursText 1 2.
Proof. repeat split. Qed.

